(** * start-agrichain.js: the AgriChain start-up orchestrator

    A shallow embedding of [MAIN/start-agrichain.js] and the properties of
    its pipeline: start the Ganache network, run [truffle migrate], patch the
    network id into [server/index.js], seed test data through web3 and start
    the backend server, with [cleanup] as the teardown routine.

    Conventions of the embedding.
    - A JavaScript string is the list of its UTF-16 code units ([N]).  The
      chunks handed to the [stdout] handlers are modelled after
      [data.toString()], that is, as strings.
    - [console.log] and [console.error] calls are not modelled: they do not
      influence control flow or any value.
    - A promise is a three-valued cell; [resolve] and [reject] only act on a
      pending cell.
    - Each readiness step runs against a schedule of time-stamped process
      events (milliseconds since the spawn).  The two [setTimeout] timers of
      the step fire in between, a timer that is due at or before the time of
      an event being run first.
    - [spawn] is taken to start its child, and [fs.writeFileSync] to succeed
      on a file that [fs.readFileSync] could read. *)

From Stdlib Require Import List NArith ZArith Bool Ascii String Lia.
Import ListNotations.

Local Open Scope N_scope.

(* ------------------------------------------------------------------ *)
(** ** Strings *)

Module Js.

Definition code_unit := N.
Definition jsstring := list code_unit.

(** A literal of the source, all of whose characters are ASCII. *)
Definition lit (s : string) : jsstring :=
  map N_of_ascii (list_ascii_of_string s).

Definition quote : code_unit := 39.     (* ' *)
Definition semicolon : code_unit := 59. (* ; *)
Definition dollar : code_unit := 36.    (* $ *)
Definition ampersand : code_unit := 38. (* & *)
Definition backtick : code_unit := 96.  (* ` *)

(** [strip_prefix p s] is [Some r] when [s = p ++ r]. *)
Fixpoint strip_prefix (p s : jsstring) : option jsstring :=
  match p, s with
  | [], _ => Some s
  | _ :: _, [] => None
  | a :: p', b :: s' => if a =? b then strip_prefix p' s' else None
  end.

Definition starts_with (p s : jsstring) : bool :=
  match strip_prefix p s with Some _ => true | None => false end.

(** [String.prototype.includes]: [p] occurs in [s] at some index. *)
Fixpoint includes (s p : jsstring) : bool :=
  starts_with p s ||
  match s with
  | [] => false
  | _ :: s' => includes s' p
  end.

(** The longest prefix of [s] whose code units satisfy [f], and the rest. *)
Fixpoint span (f : code_unit -> bool) (s : jsstring) : jsstring * jsstring :=
  match s with
  | [] => ([], [])
  | c :: s' =>
      if f c then let (a, b) := span f s' in (c :: a, b) else ([], s)
  end.

(** Character classes of the regular expressions. *)

(** [\s]: WhiteSpace and LineTerminator code units. *)
Definition is_space (c : code_unit) : bool :=
  ((9 <=? c) && (c <=? 13)) || (c =? 32) || (c =? 160) || (c =? 5760)
  || ((8192 <=? c) && (c <=? 8202)) || (c =? 8232) || (c =? 8233)
  || (c =? 8239) || (c =? 8287) || (c =? 12288) || (c =? 65279).

(** [\d] *)
Definition is_digit (c : code_unit) : bool := (48 <=? c) && (c <=? 57).

(** [[a-fA-F0-9]] *)
Definition is_hex (c : code_unit) : bool :=
  ((97 <=? c) && (c <=? 102)) || ((65 <=? c) && (c <=? 70)) || is_digit c.

(** A regular expression is given by its matcher at the start of a string:
    the matched text, the first capture group and the text after the match.
    [regex_search] is the leftmost match, as [String.prototype.match] and
    [String.prototype.replace] find it for a regular expression without
    flags: the text before the match comes first. *)
Record rmatch := RMatch {
  m_matched : jsstring;
  m_group : jsstring;
  m_rest : jsstring
}.

Fixpoint regex_search (here : jsstring -> option rmatch) (s : jsstring)
  : option (jsstring * rmatch) :=
  match here s with
  | Some m => Some ([], m)
  | None =>
      match s with
      | [] => None
      | c :: s' =>
          match regex_search here s' with
          | Some (pre, m) => Some (c :: pre, m)
          | None => None
          end
      end
  end.

(** [/contract address:\s*(0x[a-fA-F0-9]{40})/] at the start of [s].  The
    greedy [\s*] needs no backtracking: what follows it starts with [0]. *)
Definition address_here (s : jsstring) : option rmatch :=
  match strip_prefix (lit "contract address:") s with
  | None => None
  | Some r =>
      let (ws, r1) := span is_space r in
      match strip_prefix (lit "0x") r1 with
      | None => None
      | Some r2 =>
          let digits := firstn 40 r2 in
          if (List.length digits =? 40)%nat && forallb is_hex digits then
            Some {| m_matched := lit "contract address:" ++ ws ++ lit "0x" ++ digits;
                    m_group := lit "0x" ++ digits;
                    m_rest := skipn 40 r2 |}
          else None
      end
  end.

(** [/Network id:\s*(\d+)/] at the start of [s]; [\d+] is greedy. *)
Definition network_here (s : jsstring) : option rmatch :=
  match strip_prefix (lit "Network id:") s with
  | None => None
  | Some r =>
      let (ws, r1) := span is_space r in
      let (digits, r2) := span is_digit r1 in
      match digits with
      | [] => None
      | _ :: _ =>
          Some {| m_matched := lit "Network id:" ++ ws ++ digits;
                  m_group := digits;
                  m_rest := r2 |}
      end
  end.

(** [[^']] *)
Definition not_quote (c : code_unit) : bool := negb (c =? quote).

(** [/const networkId = '[^']*';/] at the start of [s]. *)
Definition locator_here (s : jsstring) : option rmatch :=
  match strip_prefix (lit "const networkId = '") s with
  | None => None
  | Some r =>
      let (body, r1) := span not_quote r in
      match strip_prefix (lit "';") r1 with
      | None => None
      | Some post =>
          Some {| m_matched := lit "const networkId = '" ++ body ++ lit "';";
                  m_group := [];
                  m_rest := post |}
      end
  end.

(** The replacement text of [String.prototype.replace] for a regular
    expression without capture groups: [$$] is a dollar sign, [$&] the
    matched text, [$`] the text before the match, [$'] the text after it;
    every other code unit, a [$] before anything else included, stands for
    itself. *)
Fixpoint substitution (template pre matched post : jsstring) : jsstring :=
  match template with
  | [] => []
  | c :: t =>
      if c =? dollar then
        match t with
        | [] => [c]
        | d :: t' =>
            if d =? dollar then dollar :: substitution t' pre matched post
            else if d =? ampersand then matched ++ substitution t' pre matched post
            else if d =? backtick then pre ++ substitution t' pre matched post
            else if d =? quote then post ++ substitution t' pre matched post
            else c :: substitution t pre matched post
        end
      else c :: substitution t pre matched post
  end.

(** [s.replace(re, template)] for a regular expression without the [g]
    flag: the leftmost match is replaced, a string without a match is
    returned as it is. *)
Definition replace (here : jsstring -> option rmatch)
                   (template s : jsstring) : jsstring :=
  match regex_search here s with
  | None => s
  | Some (pre, m) =>
      pre ++ substitution template pre (m_matched m) (m_rest m) ++ m_rest m
  end.

(** [s.match(re)] followed by the test of the result and the read of group
    1, as the deployment handler does it. *)
Definition match_group (here : jsstring -> option rmatch) (s : jsstring)
  : option jsstring :=
  match regex_search here s with
  | Some (_, m) => Some (m_group m)
  | None => None
  end.

End Js.
Import Js.


(* ------------------------------------------------------------------ *)
(** ** Child processes, errors and promises *)

(** The three [spawn] calls of the script. *)
Inductive proc := GanacheProc | MigrateProc | ServerProc.

Inductive signal := SIGTERM | SIGINT.

(** What a child process does, as its listeners see it: a chunk on
    [stdout], a chunk on [stderr], or the ['close'] event with the exit
    code ([None] is JavaScript's [null]: the child died from a signal). *)
Inductive pevent :=
| Stdout (chunk : jsstring)
| Stderr (chunk : jsstring)
| Close (code : option Z).

(** The [Error] values of the script, named after the error kinds of the
    specification; the comment gives the message of the source.
    - [ProcessExitedEarly]: "Ganache exited with code N", "Server exited
      with code N";
    - [StartupTimeout]: "Ganache startup timeout", "Server startup timeout";
    - [DeploymentFailed]: "Contract deployment failed with code N";
    - [ConfigArtifactUnreadable]: [fs.readFileSync] throws;
    - [ArtifactNotLoaded]: [require] of the build artifact throws;
    - [DeploymentArtifactMissing]: "Contract not properly deployed";
    - [InterfaceRejected]: [new web3.eth.Contract] throws on the interface
      description;
    - [InvalidAddressError]: [new web3.eth.Contract] throws on the address;
    - [CallRejected]: the promise of a [send] is rejected. *)
Inductive error :=
| ProcessExitedEarly (p : proc) (code : Z)
| StartupTimeout (p : proc)
| DeploymentFailed (code : option Z)
| ConfigArtifactUnreadable
| ArtifactNotLoaded
| DeploymentArtifactMissing
| InterfaceRejected (reason : jsstring)
| InvalidAddressError (address : jsstring)
| CallRejected (reason : jsstring).

Inductive promise (A : Type) :=
| Pending
| Fulfilled (a : A)
| Rejected (e : error).
Arguments Pending {A}.
Arguments Fulfilled {A} a.
Arguments Rejected {A} e.

Definition resolve {A} (a : A) (p : promise A) : promise A :=
  match p with Pending => Fulfilled a | _ => p end.

Definition reject {A} (e : error) (p : promise A) : promise A :=
  match p with Pending => Rejected e | _ => p end.

(* ------------------------------------------------------------------ *)
(** ** The readiness steps: [startGanache] and [startServer]

    Both functions have the same shape and differ in the marker, in the
    delay of the start-up timeout and in what the handler does on a match:
    [startGanache] defers [resolve] by two seconds with [setTimeout],
    [startServer] calls [resolve] at once. *)

Module Step.

Record config := Config {
  who : proc;
  marker : jsstring;
  timeout : N;               (* delay of the start-up [setTimeout] *)
  settle_delay : option N    (* [Some d]: [setTimeout(() => resolve(), d)] *)
}.

(** The closure of one call: the ready flag ([ganacheReady],
    [serverReady]), the promise, and the two timers. *)
Record state := State {
  ready : bool;
  outcome : promise unit;
  timeout_armed : bool;       (* the start-up timer has not fired yet *)
  settle_due : option N       (* due time of the deferred [resolve] *)
}.

Definition init : state :=
  {| ready := false; outcome := Pending;
     timeout_armed := true; settle_due := None |}.

Definition set_outcome (st : state) (p : promise unit) : state :=
  {| ready := ready st; outcome := p;
     timeout_armed := timeout_armed st; settle_due := settle_due st |}.

(** [stdout.on('data', ...)] *)
Definition on_stdout (cfg : config) (now : N) (output : jsstring)
                     (st : state) : state :=
  if includes output (marker cfg) && negb (ready st) then
    match settle_delay cfg with
    | Some d =>
        {| ready := true; outcome := outcome st;
           timeout_armed := timeout_armed st; settle_due := Some (now + d) |}
    | None =>
        {| ready := true; outcome := resolve tt (outcome st);
           timeout_armed := timeout_armed st; settle_due := settle_due st |}
    end
  else st.

(** [on('close', (code) => ...)]: [code !== 0 && code !== null] *)
Definition on_close (cfg : config) (code : option Z) (st : state) : state :=
  match code with
  | Some c =>
      if negb (c =? 0)%Z
      then set_outcome st (reject (ProcessExitedEarly (who cfg) c) (outcome st))
      else st
  | None => st
  end.

(** The callback of the start-up timer. *)
Definition on_timeout (cfg : config) (st : state) : state :=
  if negb (ready st)
  then set_outcome st (reject (StartupTimeout (who cfg)) (outcome st))
  else st.

(** The callback of the deferred [resolve]. *)
Definition on_settle (st : state) : state :=
  set_outcome st (resolve tt (outcome st)).

Definition fire_timeout (cfg : config) (st : state) : state :=
  on_timeout cfg
    {| ready := ready st; outcome := outcome st;
       timeout_armed := false; settle_due := settle_due st |}.

Definition fire_settle (st : state) : state :=
  on_settle
    {| ready := ready st; outcome := outcome st;
       timeout_armed := timeout_armed st; settle_due := None |}.

(** The timers that are due at [now] run.  When both are due their order
    does not matter: the deferred [resolve] exists only once the ready flag
    is set, and then the start-up callback does nothing. *)
Definition fire_due (cfg : config) (now : N) (st : state) : state :=
  let st1 :=
    if timeout_armed st && (timeout cfg <=? now)
    then fire_timeout cfg st else st in
  match settle_due st1 with
  | Some due => if due <=? now then fire_settle st1 else st1
  | None => st1
  end.

(** One process event at time [now]. *)
Definition handle (cfg : config) (st : state) (ev : N * pevent) : state :=
  let (now, e) := ev in
  let st1 := fire_due cfg now st in
  match e with
  | Stdout chunk => on_stdout cfg now chunk st1
  | Stderr _ => st1
  | Close code => on_close cfg code st1
  end.

Definition run_events (cfg : config) (evs : list (N * pevent)) : state :=
  fold_left (handle cfg) evs init.

(** After the last event of the process the timers that are still armed
    fire. *)
Definition finish (cfg : config) (st : state) : state :=
  let st1 := if timeout_armed st then fire_timeout cfg st else st in
  match settle_due st1 with
  | Some _ => fire_settle st1
  | None => st1
  end.

(** What [await] of the step's promise sees. *)
Definition run (cfg : config) (evs : list (N * pevent)) : promise unit :=
  outcome (finish cfg (run_events cfg evs)).

Definition ganache : config :=
  {| who := GanacheProc; marker := lit "Listening on";
     timeout := 30000; settle_delay := Some 2000 |}.

Definition server : config :=
  {| who := ServerProc; marker := lit "Server on port";
     timeout := 15000; settle_delay := None |}.

(** The ready flag after the chunks of [stdout] alone. *)
Definition ready_after (cfg : config) (chunks : list jsstring) : bool :=
  ready (fold_left (fun st c => on_stdout cfg 0 c st) chunks init).

End Step.

(* ------------------------------------------------------------------ *)
(** ** [deployContract] *)

Module Deploy.

(** The value of the promise: [{ contractAddress, networkId }]. *)
Record deployment := Deployment {
  contractAddress : jsstring;
  networkId : jsstring
}.

Record state := State {
  vars : deployment;             (* the two [let] variables *)
  outcome : promise deployment
}.

Definition init : state :=
  {| vars := {| contractAddress := []; networkId := [] |};
     outcome := Pending |}.

(** [migrateProcess.stdout.on('data', ...)] *)
Definition on_stdout (output : jsstring) (v : deployment) : deployment :=
  let v1 :=
    match match_group address_here output with
    | Some g => {| contractAddress := g; networkId := networkId v |}
    | None => v
    end in
  match match_group network_here output with
  | Some g => {| contractAddress := contractAddress v1; networkId := g |}
  | None => v1
  end.

(** [migrateProcess.on('close', ...)]: [code === 0] *)
Definition on_close (code : option Z) (st : state) : state :=
  match code with
  | Some 0%Z => {| vars := vars st; outcome := resolve (vars st) (outcome st) |}
  | _ => {| vars := vars st;
            outcome := reject (DeploymentFailed code) (outcome st) |}
  end.

Definition handle (st : state) (e : pevent) : state :=
  match e with
  | Stdout chunk => {| vars := on_stdout chunk (vars st); outcome := outcome st |}
  | Stderr _ => st
  | Close code => on_close code st
  end.

(** The step has no timer: its promise is settled by ['close'] only. *)
Definition run (evs : list pevent) : promise deployment :=
  outcome (fold_left handle evs init).

(** The two variables after the chunks of [stdout] alone. *)
Definition scan (chunks : list jsstring) : deployment :=
  fold_left (fun v c => on_stdout c v) chunks (vars init).

End Deploy.

(* ------------------------------------------------------------------ *)
(** ** The world of the script and its control flow *)

(** A call submitted through web3: [contract.methods.M(...).send({from, gas})]. *)
Inductive method :=
| addFarmer (account : jsstring)
| harvestItem (name origin : jsstring) (price : N) (quality : jsstring).

Record call := Call {
  c_method : method;
  c_from : jsstring;
  c_gas : N
}.

(** An entry of [contractJSON.networks]; a missing or empty [address] is
    falsy. *)
Record network_entry := NetworkEntry { address : option jsstring }.

(** The build artifact.  [abi] is [contractJSON.abi], the interface
    description, kept as the signatures of the functions it describes
    ([None]: the artifact has no such key).  The script hands it to web3
    and does not look into it. *)
Record contract_json := ContractJson {
  abi : option (list jsstring);
  networks : option (list (jsstring * network_entry))
}.

(** What the outside does during one run: the events of the three child
    processes, the build artifact, what the [Contract] constructor of web3
    makes of an interface description ([None]: it accepts it, [Some r]: it
    throws), and the answer of the chain to a call given the calls
    submitted before it ([None]: acknowledged, [Some r]: rejected). *)
Record env := Env {
  ganache_events : list (N * pevent);
  migrate_events : list pevent;
  artifact : option contract_json;
  interface_error : option (list jsstring) -> option jsstring;
  chain_reply : list call -> call -> option jsstring;
  server_events : list (N * pevent)
}.

(** The mutable state: the two module-level variables, the file
    [server/index.js] ([None]: it cannot be read), and a record of the
    [spawn], [kill] and [send] calls made so far. *)
Record world := World {
  ganacheProcess : option proc;
  serverProcess : option proc;
  spawned : list proc;
  signalled : list (proc * signal);
  server_index_js : option jsstring;
  sent : list call
}.

Definition initial (file : option jsstring) : world :=
  {| ganacheProcess := None; serverProcess := None; spawned := [];
     signalled := []; server_index_js := file; sent := [] |}.

(** How a piece of the script ends: it returns, it throws, the process
    exits with a status, or it awaits a promise that is never settled. *)
Inductive result (A : Type) :=
| Returned (a : A)
| Thrown (e : error)
| Exited (status : Z)
| Waiting.
Arguments Returned {A} a.
Arguments Thrown {A} e.
Arguments Exited {A} status.
Arguments Waiting {A}.

Definition M (A : Type) := world -> result A * world.

Definition ret {A} (a : A) : M A := fun w => (Returned a, w).

Definition throw {A} (e : error) : M A := fun w => (Thrown e, w).

Definition bind {A B} (m : M A) (k : A -> M B) : M B :=
  fun w =>
    match m w with
    | (Returned a, w') => k a w'
    | (Thrown e, w') => (Thrown e, w')
    | (Exited s, w') => (Exited s, w')
    | (Waiting, w') => (Waiting, w')
    end.

Notation "x <- m ;; k" := (bind m (fun x => k))
  (at level 61, m at next level, right associativity).
Notation "m ;; k" := (bind m (fun _ => k))
  (at level 61, right associativity).

(** [try { body } catch (error) { handler }] *)
Definition try_catch {A} (body : M A) (handler : error -> M A) : M A :=
  fun w =>
    match body w with
    | (Thrown e, w') => handler e w'
    | r => r
    end.

Definition await {A} (p : promise A) : M A :=
  fun w =>
    match p with
    | Fulfilled a => (Returned a, w)
    | Rejected e => (Thrown e, w)
    | Pending => (Waiting, w)
    end.

(** [process.exit(status)] *)
Definition process_exit {A} (status : Z) : M A := fun w => (Exited status, w).

(** [p.kill(sig)] *)
Definition kill (p : proc) (sig : signal) : M unit :=
  fun w =>
    (Returned tt,
     {| ganacheProcess := ganacheProcess w; serverProcess := serverProcess w;
        spawned := spawned w; signalled := signalled w ++ [(p, sig)];
        server_index_js := server_index_js w; sent := sent w |}).

(** [spawn(...)], with the assignment of the handle to the module-level
    variable where the source has one. *)
Definition spawn (p : proc) : M unit :=
  fun w =>
    (Returned tt,
     {| ganacheProcess :=
          match p with GanacheProc => Some p | _ => ganacheProcess w end;
        serverProcess :=
          match p with ServerProc => Some p | _ => serverProcess w end;
        spawned := spawned w ++ [p]; signalled := signalled w;
        server_index_js := server_index_js w; sent := sent w |}).

(** [cleanup]: it ends in [process.exit(0)] and so never returns. *)
Definition cleanup : M unit :=
  fun w =>
    (match ganacheProcess w with
     | Some p => kill p SIGTERM
     | None => ret tt
     end ;;
     match serverProcess w with
     | Some p => kill p SIGTERM
     | None => ret tt
     end ;;
     process_exit 0) w.

(** [process.on('SIGINT', cleanup)], [process.on('SIGTERM', cleanup)] *)
Definition on_signal (sig : signal) : M unit := cleanup.

Definition startGanache (e : env) : M unit :=
  spawn GanacheProc ;;
  await (Step.run Step.ganache (ganache_events e)).

Definition deployContract (e : env) : M Deploy.deployment :=
  spawn MigrateProc ;;
  await (Deploy.run (migrate_events e)).

(** The replacement text [`const networkId = '${networkId}';`]. *)
Definition template (networkId : jsstring) : jsstring :=
  lit "const networkId = '" ++ networkId ++ lit "';".

(** The new content of [server/index.js]. *)
Definition patch (networkId serverContent : jsstring) : jsstring :=
  replace locator_here (template networkId) serverContent.

Definition updateServerConfig (networkId : jsstring) : M unit :=
  fun w =>
    match server_index_js w with
    | None => (Thrown ConfigArtifactUnreadable, w)
    | Some serverContent =>
        (Returned tt,
         {| ganacheProcess := ganacheProcess w;
            serverProcess := serverProcess w;
            spawned := spawned w; signalled := signalled w;
            server_index_js := Some (patch networkId serverContent);
            sent := sent w |})
    end.

Definition farmerAccount : jsstring :=
  lit "0x90F8bf6A479f320ead074411a4B0e7944Ea8c9C1".

Record item := Item {
  name : jsstring;
  origin : jsstring;
  price : N;
  quality : jsstring
}.

Definition testItems : list item :=
  [ {| name := lit "Mango"; origin := lit "Mumbai"; price := 1000;
       quality := lit "Premium" |};
    {| name := lit "Rice"; origin := lit "Punjab"; price := 500;
       quality := lit "Organic" |};
    {| name := lit "Wheat"; origin := lit "Haryana"; price := 300;
       quality := lit "Standard" |} ].

Definition farmer_call : call :=
  {| c_method := addFarmer farmerAccount; c_from := farmerAccount;
     c_gas := 3000000 |}.

Definition item_call (i : item) : call :=
  {| c_method := harvestItem (name i) (origin i) (price i) (quality i);
     c_from := farmerAccount; c_gas := 3000000 |}.

(** [await contract.methods.M(...).send(...)]: the call is submitted, and
    the script goes on once the chain has answered. *)
Definition send (e : env) (c : call) : M unit :=
  fun w =>
    let w' :=
      {| ganacheProcess := ganacheProcess w; serverProcess := serverProcess w;
         spawned := spawned w; signalled := signalled w;
         server_index_js := server_index_js w; sent := sent w ++ [c] |} in
    match chain_reply e (sent w) c with
    | None => (Returned tt, w')
    | Some reason => (Thrown (CallRejected reason), w')
    end.

(** [contractJSON.networks && contractJSON.networks[networkId]], then the
    test [!deployed || !deployed.address]. *)
Fixpoint lookup (key : jsstring) (o : list (jsstring * network_entry))
  : option network_entry :=
  match o with
  | [] => None
  | (k, v) :: o' =>
      if list_eq_dec N.eq_dec k key then Some v else lookup key o'
  end.

Definition deployed_address (j : contract_json) (networkId : jsstring)
  : option jsstring :=
  match networks j with
  | None => None
  | Some o =>
      match lookup networkId o with
      | Some {| address := Some (c :: a) |} => Some (c :: a)
      | _ => None
      end
  end.

(** The test of web3 for an address, without the checksum: an optional
    [0x] or [0X] and forty hexadecimal digits. *)
Definition strip_0x (a : jsstring) : jsstring :=
  match a with
  | z :: x :: r =>
      if (z =? 48) && ((x =? 120) || (x =? 88)) then r else a
  | _ => a
  end.

Definition is_address (a : jsstring) : bool :=
  (List.length (strip_0x a) =? 40)%nat && forallb is_hex (strip_0x a).

(** [new web3.eth.Contract(contractABI, deployed.address)]: the constructor
    reads the interface description and then the address, which it turns
    into its checksum form; it throws on an address that fails the test. *)
Definition new_contract (e : env) (contractABI : option (list jsstring))
                        (address : jsstring) : M unit :=
  match interface_error e contractABI with
  | Some reason => throw (InterfaceRejected reason)
  | None =>
      if is_address address then ret tt
      else throw (InvalidAddressError address)
  end.

(** The [for] loop over the items. *)
Fixpoint harvest_all (e : env) (items : list item) : M unit :=
  match items with
  | [] => ret tt
  | i :: rest => send e (item_call i) ;; harvest_all e rest
  end.

(** [createTestData] with the list of items as a parameter.  [new Web3]
    with the fixed URL builds the client and contacts nothing; the
    [require] of the artifact and the [Contract] constructor can throw. *)
Definition seed (e : env) (items : list item) (networkId : jsstring) : M unit :=
  try_catch
    (match artifact e with
     | None => throw ArtifactNotLoaded
     | Some contractJSON =>
         let contractABI := abi contractJSON in
         match deployed_address contractJSON networkId with
         | None => throw DeploymentArtifactMissing
         | Some address =>
             new_contract e contractABI address ;;
             send e farmer_call ;;
             harvest_all e items
         end
     end)
    (fun error => throw error).

Definition createTestData (e : env) (networkId : jsstring) : M unit :=
  seed e testItems networkId.

Definition startServer (e : env) : M unit :=
  spawn ServerProc ;;
  await (Step.run Step.server (server_events e)).

(** [main]: the last statement of the [try] block awaits a promise that is
    never settled. *)
Definition main (e : env) : M unit :=
  try_catch
    (startGanache e ;;
     d <- deployContract e ;;
     updateServerConfig (Deploy.networkId d) ;;
     createTestData e (Deploy.networkId d) ;;
     startServer e ;;
     await Pending)
    (fun error => cleanup ;; process_exit 1).

(* ------------------------------------------------------------------ *)
(** ** Vocabulary of the statements *)

Definition not_dollar (c : code_unit) : bool := negb (c =? dollar).

(** The declaration up to its opening quote. *)
Definition decl_head : jsstring := lit "const networkId = ".

(** A value that the replacement text carries unchanged and that closes the
    declaration where the text says: no quote, no dollar sign, and no
    semicolon in front.  Every string of decimal digits is one, as is the
    empty string. *)
Definition plain_value (v : jsstring) : bool :=
  forallb not_quote v && forallb not_dollar v &&
  match v with
  | [] => true
  | c :: _ => negb (c =? semicolon)
  end.

(** The chunks of a text in which every chunk is scanned on its own. *)
Definition some_chunk_includes (chunks : list jsstring) (p : jsstring) : bool :=
  existsb (fun c => includes c p) chunks.

(** The chunks that a process writes to [stdout], in order. *)
Definition stdout_chunks (evs : list pevent) : list jsstring :=
  flat_map (fun e => match e with Stdout c => [c] | _ => [] end) evs.

(** The capture of the last chunk in which the pattern matches, the empty
    string when it matches in none. *)
Definition has_match (here : jsstring -> option rmatch) (c : jsstring) : bool :=
  match match_group here c with Some _ => true | None => false end.

Definition last_capture (here : jsstring -> option rmatch)
                        (chunks : list jsstring) : jsstring :=
  match find (has_match here) (rev chunks) with
  | Some c => match match_group here c with Some g => g | None => [] end
  | None => []
  end.

(** Events of a readiness step that arrive before the start-up timer is
    due.  A [silent] one is output without the marker; a [harmless] one may
    also be a ['close'] that the handler ignores (exit code 0 or [null]). *)
Definition early (cfg : Step.config) (ev : N * pevent) : bool :=
  fst ev <? Step.timeout cfg.

Definition silent (cfg : Step.config) (ev : N * pevent) : bool :=
  early cfg ev &&
  match snd ev with
  | Stdout c => negb (includes c (Step.marker cfg))
  | Stderr _ => true
  | Close _ => false
  end.

Definition harmless (cfg : Step.config) (ev : N * pevent) : bool :=
  early cfg ev &&
  match snd ev with
  | Stdout c => negb (includes c (Step.marker cfg))
  | Stderr _ => true
  | Close (Some c) => (c =? 0)%Z
  | Close None => true
  end.

(** The same run with other events for one of the two long-lived
    processes. *)
Definition with_ganache_events (e : env) (evs : list (N * pevent)) : env :=
  {| ganache_events := evs; migrate_events := migrate_events e;
     artifact := artifact e; interface_error := interface_error e;
     chain_reply := chain_reply e;
     server_events := server_events e |}.

Definition with_server_events (e : env) (evs : list (N * pevent)) : env :=
  {| ganache_events := ganache_events e; migrate_events := migrate_events e;
     artifact := artifact e; interface_error := interface_error e;
     chain_reply := chain_reply e;
     server_events := evs |}.

(** The promise of a step is pending only while a timer that settles it is
    still armed. *)
Definition progress (st : Step.state) : Prop :=
  Step.outcome st = Pending ->
  (Step.ready st = true /\ Step.settle_due st <> None) \/
  (Step.ready st = false /\ Step.timeout_armed st = true).

(** The deferred [resolve] exists only once the ready flag is set. *)
Definition settle_implies_ready (st : Step.state) : Prop :=
  Step.settle_due st <> None -> Step.ready st = true.

(** The promise of the step is fulfilled once the timers due at [t] have
    run after the events [evs]. *)
Definition resolved_by (cfg : Step.config) (evs : list (N * pevent)) (t : N)
  : Prop :=
  Step.outcome (Step.fire_due cfg t (Step.run_events cfg evs)) = Fulfilled tt.

(** Once the ready flag is set the start-up timer cannot fail the step. *)
Definition no_timeout_failure (cfg : Step.config) (st : Step.state) : Prop :=
  Step.ready st = true /\
  Step.outcome st <> Rejected (StartupTimeout (Step.who cfg)).

(** Before the start-up timer is due it has not failed the step. *)
Definition timeout_ahead (cfg : Step.config) (st : Step.state) : Prop :=
  Step.timeout_armed st = true /\
  Step.outcome st <> Rejected (StartupTimeout (Step.who cfg)).

(** The world with another record of submitted calls. *)
Definition with_sent (w : world) (cs : list call) : world :=
  {| ganacheProcess := ganacheProcess w; serverProcess := serverProcess w;
     spawned := spawned w; signalled := signalled w;
     server_index_js := server_index_js w; sent := cs |}.

(** The calls [cs] submitted one after the other, each after the answer to
    the one before. *)
Fixpoint submit (e : env) (cs : list call) : M unit :=
  match cs with
  | [] => ret tt
  | c :: rest => send e c ;; submit e rest
  end.

(** The calls of a seeding run in which the chain rejects none. *)
Definition seeding_calls (items : list item) : list call :=
  farmer_call :: map item_call items.


(** The processes that [cleanup] can reach, in the order in which it
    visits them. *)
Definition registered (w : world) : list proc :=
  match ganacheProcess w with Some p => [p] | None => [] end ++
  match serverProcess w with Some p => [p] | None => [] end.

Definition is_migrate (p : proc) : bool :=
  match p with MigrateProc => true | _ => false end.

Definition is_close (e : pevent) : bool :=
  match e with Close _ => true | _ => false end.

(** Output of the deployment process in which neither pattern matches. *)
Definition unmatched (e : pevent) : bool :=
  match e with
  | Stdout c => negb (has_match address_here c) && negb (has_match network_here c)
  | Stderr _ => true
  | Close _ => false
  end.

(** Three runs.  In [run_ganache_exits] the network process exits with
    code 1 before it is ready; in [run_deploy_fails] the network comes up and
    the migration exits with code 1; [run_scenario] is the run in which every
    step succeeds. *)
Definition supply_chain_abi : list jsstring :=
  [lit "addFarmer(address)"; lit "harvestItem(string,string,uint256,string)"].

Definition artifact_5777 : contract_json :=
  {| abi := Some supply_chain_abi;
     networks :=
       Some [(lit "5777",
              {| address := Some (lit "0xABCDEF0123456789ABCDEF0123456789ABCDEF01") |})] |}.

Definition run_ganache_exits : env :=
  {| ganache_events := [(1200, Stderr (lit "EADDRINUSE")); (1250, Close (Some 1%Z))];
     migrate_events := [];
     artifact := Some artifact_5777;
     interface_error := fun _ => None;
     chain_reply := fun _ _ => None;
     server_events := [] |}.

Definition run_deploy_fails : env :=
  {| ganache_events := [(1200, Stdout (lit "RPC Listening on 127.0.0.1:7545"))];
     migrate_events := [Stdout (lit "Compiling your contracts..."); Close (Some 1%Z)];
     artifact := Some artifact_5777;
     interface_error := fun _ => None;
     chain_reply := fun _ _ => None;
     server_events := [] |}.

Definition run_scenario : env :=
  {| ganache_events := [(1200, Stdout (lit "RPC Listening on 127.0.0.1:7545"))];
     migrate_events :=
       [Stdout (lit "   > contract address:    0xABCDEF0123456789ABCDEF0123456789ABCDEF01");
        Stdout (lit "> Network id:      5777");
        Close (Some 0%Z)];
     artifact := Some artifact_5777;
     interface_error := fun _ => None;
     chain_reply := fun _ _ => None;
     server_events := [(900, Stdout (lit "Server on port 5000"))] |}.

(** An event that arrives before [until] and is not an exit with a nonzero
    code. *)
Definition calm (until : N) (ev : N * pevent) : bool :=
  (fst ev <? until) &&
  match snd ev with
  | Close (Some c) => (c =? 0)%Z
  | _ => true
  end.

(** The closure of a step between the match and the deferred [resolve]. *)
Definition settling (due : N) (st : Step.state) : Prop :=
  Step.ready st = true /\ Step.outcome st = Pending /\
  Step.settle_due st = Some due.

(** What the promise of a step can hold after the events [evs], and why. *)
Definition explained (cfg : Step.config) (evs : list (N * pevent))
                     (ready : bool) (p : promise unit) : Prop :=
  p = Pending
  \/ (p = Fulfilled tt /\ ready = true)
  \/ p = Rejected (StartupTimeout (Step.who cfg))
  \/ exists t c, c <> 0%Z /\ In (t, Close (Some c)) evs /\
                 p = Rejected (ProcessExitedEarly (Step.who cfg) c).

(** Events of the deployment process before it closes. *)
Definition still_open (evs : list pevent) : bool :=
  forallb (fun e => negb (is_close e)) evs.

(** The shape of what the two patterns capture: [0x] and forty hexadecimal
    digits for the address, decimal digits for the network id; the two
    variables start out empty. *)
Definition address_shaped (a : jsstring) : bool :=
  starts_with (lit "0x") a && (List.length a =? 42)%nat &&
  forallb is_hex (skipn 2 a).

Definition deployment_shaped (d : Deploy.deployment) : bool :=
  match Deploy.contractAddress d with
  | [] => true
  | _ :: _ => address_shaped (Deploy.contractAddress d)
  end && forallb is_digit (Deploy.networkId d).

(** The world of a run once the configuration is patched: the network is
    up, the migration has been spawned, and [file] is the content of
    [server/index.js]. *)
Definition patched_world (file : option jsstring) : world :=
  {| ganacheProcess := Some GanacheProc; serverProcess := None;
     spawned := [GanacheProc; MigrateProc]; signalled := [];
     server_index_js := file; sent := [] |}.

(* ------------------------------------------------------------------ *)
(** * Properties *)

(** ** Strings and the three regular expressions *)

Section StringFacts.

Lemma strip_prefix_spec (p s r : jsstring) :
  strip_prefix p s = Some r <-> s = p ++ r.
Proof.
  revert s; induction p as [|a p IH]; intros s; simpl.
  - split; [intros [= ->] | intros ->]; reflexivity.
  - destruct s as [|b s]; [split; discriminate|].
    destruct (N.eqb_spec a b) as [->|Hne].
    + rewrite IH. split; [intros ->; reflexivity | intros [= ->]; reflexivity].
    + split; [discriminate | intros [= <- _]; contradiction].
Qed.

Lemma strip_prefix_app (p r : jsstring) : strip_prefix p (p ++ r) = Some r.
Proof. apply strip_prefix_spec; reflexivity. Qed.

Lemma starts_with_spec (p s : jsstring) :
  starts_with p s = true <-> exists r, s = p ++ r.
Proof.
  unfold starts_with. destruct (strip_prefix p s) as [r|] eqn:E.
  - apply strip_prefix_spec in E. split; [eauto | reflexivity].
  - split; [discriminate|]. intros [r ->].
    rewrite strip_prefix_app in E. discriminate.
Qed.

(** [includes] is the substring relation. *)
Lemma includes_spec (s p : jsstring) :
  includes s p = true <-> exists a b, s = a ++ p ++ b.
Proof.
  induction s as [|c s IH]; simpl.
  - rewrite orb_false_r, starts_with_spec. split.
    + intros [r E]. exists [], r. exact E.
    + intros (a & b & E). destruct a; [|discriminate]. eauto.
  - rewrite orb_true_iff, starts_with_spec, IH. split.
    + intros [[r E] | (a & b & E)].
      * exists [], r. exact E.
      * exists (c :: a), b. rewrite E. reflexivity.
    + intros (a & b & E). destruct a as [|c' a].
      * left. eauto.
      * right. injection E as _ E. eauto.
Qed.

Lemma includes_app_mid (x s y p : jsstring) :
  includes s p = true -> includes (x ++ s ++ y) p = true.
Proof.
  rewrite !includes_spec. intros (a & b & ->).
  exists (x ++ a), (b ++ y). rewrite <- !app_assoc. reflexivity.
Qed.

Lemma includes_concat (chunks : list jsstring) (p : jsstring) :
  existsb (fun c => includes c p) chunks = true ->
  includes (List.concat chunks) p = true.
Proof.
  induction chunks as [|c cs IH]; simpl; [discriminate|].
  rewrite orb_true_iff. intros [H | H].
  - apply (includes_app_mid [] c (List.concat cs)). exact H.
  - rewrite <- (app_nil_r (List.concat cs)).
    apply (includes_app_mid c (List.concat cs) []). auto.
Qed.

Lemma span_spec (f : code_unit -> bool) (s a b : jsstring) :
  span f s = (a, b) ->
  s = a ++ b /\ forallb f a = true /\
  match b with [] => True | c :: _ => f c = false end.
Proof.
  revert a b; induction s as [|c s IH]; simpl; intros a b.
  - intros [= <- <-]. auto.
  - destruct (f c) eqn:Fc.
    + destruct (span f s) as [a' b'] eqn:E. intros [= <- <-].
      destruct (IH _ _ eq_refl) as (-> & Ha & Hb).
      simpl. rewrite Fc, Ha. auto.
    + intros [= <- <-]. simpl. auto.
Qed.

Lemma span_app (f : code_unit -> bool) (a b : jsstring) :
  forallb f a = true ->
  match b with [] => True | c :: _ => f c = false end ->
  span f (a ++ b) = (a, b).
Proof.
  intros Ha Hb. induction a as [|c a IH]; simpl in *.
  - destruct b as [|c b]; [reflexivity|]. simpl. rewrite Hb. reflexivity.
  - apply andb_true_iff in Ha as [Hc Ha]. rewrite Hc, (IH Ha). reflexivity.
Qed.

Lemma decl_prefix_eq : lit "const networkId = '" = decl_head ++ [quote].
Proof. reflexivity. Qed.

Lemma decl_head_no_quote : forallb not_quote decl_head = true.
Proof. reflexivity. Qed.

(** The first quote of a string splits it in one way only. *)
Lemma first_quote_unique (a b x y : jsstring) :
  forallb not_quote a = true -> forallb not_quote b = true ->
  a ++ quote :: x = b ++ quote :: y -> a = b /\ x = y.
Proof.
  revert b; induction a as [|c a IH]; intros [|d b] Ha Hb E; simpl in *.
  - injection E as ->. auto.
  - injection E as <- _. discriminate.
  - injection E as -> _. discriminate.
  - injection E as -> E.
    apply andb_true_iff in Ha as [_ Ha]. apply andb_true_iff in Hb as [_ Hb].
    destruct (IH b Ha Hb E) as [-> ->]. auto.
Qed.

(** The locator pattern matches at the start of [s] exactly when [s] is the
    declaration with a quote-free value, followed by anything. *)
Lemma locator_here_spec (s : jsstring) (m : rmatch) :
  locator_here s = Some m <->
  exists body post,
    s = decl_head ++ quote :: body ++ quote :: semicolon :: post /\
    forallb not_quote body = true /\
    m = {| m_matched := lit "const networkId = '" ++ body ++ lit "';";
           m_group := []; m_rest := post |}.
Proof.
  unfold locator_here. split.
  - destruct (strip_prefix _ s) as [r|] eqn:E; [|discriminate].
    apply strip_prefix_spec in E.
    destruct (span _ r) as [body r1] eqn:Es.
    apply span_spec in Es as (-> & Hb & _).
    destruct (strip_prefix _ r1) as [post|] eqn:E1; [|discriminate].
    apply strip_prefix_spec in E1. subst r1.
    intros [= <-]. exists body, post. subst s.
    rewrite decl_prefix_eq, <- app_assoc. auto.
  - intros (body & post & -> & Hb & ->).
    change (decl_head ++ quote :: body ++ quote :: semicolon :: post)
      with (decl_head ++ [quote] ++ body ++ lit "';" ++ post).
    rewrite app_assoc, <- decl_prefix_eq, strip_prefix_app.
    rewrite (span_app _ body (lit "';" ++ post) Hb); [|reflexivity].
    rewrite strip_prefix_app. reflexivity.
Qed.

(** What [regex_search] returns is a match at the end of the text before
    it. *)
Lemma regex_search_sound (here : jsstring -> option rmatch)
      (s pre : jsstring) (m : rmatch) :
  regex_search here s = Some (pre, m) ->
  exists suffix, s = pre ++ suffix /\ here suffix = Some m.
Proof.
  revert pre; induction s as [|c s IH]; intros pre; simpl.
  - destruct (here []) eqn:E; [|discriminate].
    intros [= <- <-]. exists []. auto.
  - destruct (here (c :: s)) eqn:E.
    + intros [= <- <-]. exists (c :: s). auto.
    + destruct (regex_search here s) as [[pre' m']|] eqn:Es; [|discriminate].
      intros [= <- <-]. destruct (IH _ eq_refl) as (suffix & -> & H).
      exists suffix. auto.
Qed.

Lemma regex_search_here (here : jsstring -> option rmatch)
      (s : jsstring) (m : rmatch) :
  here s = Some m -> regex_search here s = Some ([], m).
Proof. intros H. destruct s; simpl; rewrite H; reflexivity. Qed.

Lemma regex_search_skip (here : jsstring -> option rmatch)
      (c : code_unit) (s : jsstring) :
  here (c :: s) = None ->
  regex_search here (c :: s) =
  match regex_search here s with
  | Some (pre, m) => Some (c :: pre, m)
  | None => None
  end.
Proof. intros H. simpl. rewrite H. reflexivity. Qed.

(** A replacement text without [$] stands for itself. *)
Lemma substitution_plain (t pre matched post : jsstring) :
  forallb not_dollar t = true -> substitution t pre matched post = t.
Proof.
  induction t as [|c t IH]; simpl; [reflexivity|].
  intros H. apply andb_true_iff in H as [Hc Ht].
  unfold not_dollar in Hc. apply negb_true_iff in Hc. rewrite Hc.
  rewrite (IH Ht). reflexivity.
Qed.

End StringFacts.

(** ** The configuration patch *)

Section Patch.

Lemma template_plain (v : jsstring) :
  forallb not_dollar v = true -> forallb not_dollar (template v) = true.
Proof.
  intros H. unfold template. rewrite !forallb_app, H. reflexivity.
Qed.

Lemma template_eq (v post : jsstring) :
  template v ++ post = decl_head ++ quote :: v ++ quote :: semicolon :: post.
Proof.
  unfold template. rewrite decl_prefix_eq, <- !app_assoc. reflexivity.
Qed.

Lemma locator_here_template (v post : jsstring) :
  forallb not_quote v = true ->
  locator_here (template v ++ post) =
  Some {| m_matched := template v; m_group := []; m_rest := post |}.
Proof.
  intros Hv. apply locator_here_spec. exists v, post.
  rewrite template_eq. auto.
Qed.

(** Writing another plain value into the leftmost declaration creates no
    match further to the left. *)
Lemma no_earlier_match (pre body v post : jsstring) :
  pre <> [] ->
  forallb not_quote v = true ->
  match v with [] => True | c :: _ => c <> semicolon end ->
  locator_here (pre ++ template body ++ post) = None ->
  locator_here (pre ++ template v ++ post) = None.
Proof.
  intros Hpre Hv Hsemi Hnone.
  destruct (locator_here (pre ++ template v ++ post)) as [m|] eqn:E;
    [exfalso | reflexivity].
  apply locator_here_spec in E as (b & post' & E & Hb & _).
  rewrite template_eq in E.
  destruct (span not_quote pre) as [a r] eqn:Es.
  apply span_spec in Es as (-> & Ha & Hr).
  destruct r as [|q r].
  - (* no quote in [pre]: the heads would coincide *)
    rewrite app_nil_r in *. rewrite app_assoc in E.
    apply first_quote_unique in E as [E _];
      [| rewrite forallb_app, Ha; reflexivity | reflexivity].
    apply (f_equal (@List.length _)) in E. rewrite length_app in E.
    destruct a; [contradiction | simpl in E; lia].
  - unfold not_quote in Hr. apply negb_false_iff, N.eqb_eq in Hr. subst q.
    rewrite <- app_assoc in E. cbn [app] in E.
    apply first_quote_unique in E as [-> E]; [| assumption | reflexivity].
    destruct (span not_quote r) as [a2 r2] eqn:Es2.
    apply span_spec in Es2 as (-> & Ha2 & Hr2).
    destruct r2 as [|q r2].
    + rewrite app_nil_r in *. rewrite app_assoc in E.
      apply first_quote_unique in E as [_ E];
        [| rewrite forallb_app, Ha2; reflexivity | assumption].
      destruct v as [|c v]; cbn [app] in E.
      * discriminate.
      * injection E as -> _. contradiction.
    + unfold not_quote in Hr2. apply negb_false_iff, N.eqb_eq in Hr2. subst q.
      rewrite <- app_assoc in E. cbn [app] in E.
      apply first_quote_unique in E as [-> E]; [| assumption | assumption].
      destruct r2 as [|c r2]; [discriminate|].
      injection E as -> _.
      assert (H : locator_here
                    (decl_head ++ quote :: b ++ quote :: semicolon :: r2
                     ++ template body ++ post) =
                  Some {| m_matched := lit "const networkId = '" ++ b ++ lit "';";
                          m_group := [];
                          m_rest := r2 ++ template body ++ post |}).
      { apply locator_here_spec. exists b, (r2 ++ template body ++ post). auto. }
      rewrite <- app_assoc in Hnone. cbn [app] in Hnone.
      rewrite <- app_assoc in Hnone. cbn [app] in Hnone.
      rewrite H in Hnone. discriminate.
Qed.

(** After the patch with a plain value, the leftmost declaration is the one
    that was written. *)
Lemma regex_search_patched (s pre v : jsstring) (m : rmatch) :
  forallb not_quote v = true ->
  match v with [] => True | c :: _ => c <> semicolon end ->
  regex_search locator_here s = Some (pre, m) ->
  regex_search locator_here (pre ++ template v ++ m_rest m) =
  Some (pre, {| m_matched := template v; m_group := []; m_rest := m_rest m |}).
Proof.
  intros Hv Hsemi. revert pre. induction s as [|c s IH]; intros pre H.
  - simpl in H. destruct (locator_here []) eqn:E; [discriminate E | discriminate].
  - simpl in H. destruct (locator_here (c :: s)) as [m0|] eqn:E.
    + injection H as <- <-. cbn [app].
      apply regex_search_here, locator_here_template, Hv.
    + destruct (regex_search locator_here s) as [[pre' m']|] eqn:Es;
        [|discriminate].
      injection H as <- <-. specialize (IH pre' eq_refl).
      apply regex_search_sound in Es as (suffix & -> & Hsuf).
      apply locator_here_spec in Hsuf as (body & post & -> & Hb & ->).
      cbn [m_rest] in *. rewrite <- template_eq in E.
      cbn [app]. rewrite regex_search_skip.
      * rewrite IH. reflexivity.
      * apply (no_earlier_match (c :: pre') body v post); auto.
        discriminate.
Qed.

Lemma plain_value_parts (v : jsstring) :
  plain_value v = true ->
  forallb not_quote v = true /\ forallb not_dollar v = true /\
  match v with [] => True | c :: _ => c <> semicolon end.
Proof.
  unfold plain_value. rewrite !andb_true_iff. intros [[Hq Hd] Hs].
  repeat split; auto. destruct v as [|c v]; [exact I|].
  apply negb_true_iff, N.eqb_neq in Hs. exact Hs.
Qed.

Lemma digits_plain (v : jsstring) :
  forallb is_digit v = true -> plain_value v = true.
Proof.
  intros H. unfold plain_value.
  assert (Hc : forall c, is_digit c = true ->
             not_quote c = true /\ not_dollar c = true /\ (c =? semicolon) = false).
  { intros c Hc. unfold is_digit in Hc. apply andb_true_iff in Hc as [H1 H2].
    apply N.leb_le in H1, H2.
    unfold not_quote, not_dollar, quote, dollar, semicolon.
    rewrite !negb_true_iff. repeat split; apply N.eqb_neq; lia. }
  rewrite !andb_true_iff. repeat split.
  - rewrite forallb_forall in *. intros c Hin. apply Hc; auto.
  - rewrite forallb_forall in *. intros c Hin. apply Hc; auto.
  - destruct v as [|c v]; [reflexivity|]. simpl in H.
    apply andb_true_iff in H as [H _]. apply Hc in H as (_ & _ & ->).
    reflexivity.
Qed.

Lemma patch_plain (v s pre : jsstring) (m : rmatch) :
  forallb not_dollar v = true ->
  regex_search locator_here s = Some (pre, m) ->
  patch v s = pre ++ template v ++ m_rest m.
Proof.
  intros Hd E. unfold patch, replace. rewrite E.
  rewrite substitution_plain by (apply template_plain; exact Hd).
  reflexivity.
Qed.

Lemma patch_absent (v s : jsstring) :
  regex_search locator_here s = None -> patch v s = s.
Proof. intros E. unfold patch, replace. rewrite E. reflexivity. Qed.

End Patch.

(** ** The output handlers *)

Section Chunks.

Lemma ready_after_snoc (cfg : Step.config) (chunks : list jsstring) (c : jsstring) :
  Step.ready_after cfg (chunks ++ [c]) =
  Step.ready_after cfg chunks || includes c (Step.marker cfg).
Proof.
  unfold Step.ready_after. rewrite fold_left_app. cbn [fold_left].
  set (st := fold_left _ chunks Step.init).
  unfold Step.on_stdout.
  destruct (includes c (Step.marker cfg)), (Step.ready st) eqn:R; simpl;
    try rewrite R; try reflexivity;
    destruct (Step.settle_delay cfg); reflexivity.
Qed.

Lemma some_chunk_includes_snoc (chunks : list jsstring) (c p : jsstring) :
  some_chunk_includes (chunks ++ [c]) p =
  some_chunk_includes chunks p || includes c p.
Proof.
  unfold some_chunk_includes. rewrite existsb_app. simpl.
  rewrite orb_false_r. reflexivity.
Qed.

Lemma ready_after_spec (cfg : Step.config) (chunks : list jsstring) :
  Step.ready_after cfg chunks = some_chunk_includes chunks (Step.marker cfg).
Proof.
  induction chunks as [|c chunks IH] using rev_ind; [reflexivity|].
  rewrite ready_after_snoc, some_chunk_includes_snoc, IH. reflexivity.
Qed.

Lemma last_capture_snoc (here : jsstring -> option rmatch)
      (chunks : list jsstring) (c : jsstring) :
  last_capture here (chunks ++ [c]) =
  match match_group here c with
  | Some g => g
  | None => last_capture here chunks
  end.
Proof.
  unfold last_capture. rewrite rev_app_distr. simpl.
  unfold has_match at 1. destruct (match_group here c) eqn:E; [|reflexivity].
  rewrite E. reflexivity.
Qed.

Lemma scan_spec (chunks : list jsstring) :
  Deploy.scan chunks =
  {| Deploy.contractAddress := last_capture address_here chunks;
     Deploy.networkId := last_capture network_here chunks |}.
Proof.
  induction chunks as [|c chunks IH] using rev_ind; [reflexivity|].
  unfold Deploy.scan in *. rewrite fold_left_app. cbn [fold_left].
  rewrite IH, !last_capture_snoc. unfold Deploy.on_stdout.
  destruct (match_group address_here c), (match_group network_here c);
    reflexivity.
Qed.

Lemma stdout_chunks_snoc (evs : list pevent) (e : pevent) :
  stdout_chunks (evs ++ [e]) =
  stdout_chunks evs ++ match e with Stdout c => [c] | _ => [] end.
Proof.
  unfold stdout_chunks. rewrite flat_map_app. simpl.
  rewrite app_nil_r. reflexivity.
Qed.

(** Timers and ['close'] events do not touch the ready flag: it depends on
    the chunks of [stdout] only. *)
Lemma ready_handle (cfg : Step.config) (st : Step.state) (t : N) (e : pevent) :
  Step.ready (Step.handle cfg st (t, e)) =
  match e with
  | Stdout c => Step.ready st || includes c (Step.marker cfg)
  | _ => Step.ready st
  end.
Proof.
  assert (Hd : Step.ready (Step.fire_due cfg t st) = Step.ready st).
  { unfold Step.fire_due, Step.fire_timeout, Step.fire_settle,
      Step.on_timeout, Step.on_settle, Step.set_outcome.
    destruct st as [r o ta sd]. simpl.
    destruct (ta && (Step.timeout cfg <=? t)), (negb r); simpl;
      destruct sd as [d|]; simpl; try reflexivity;
      destruct (d <=? t); reflexivity. }
  unfold Step.handle. destruct e as [c| |code].
  - unfold Step.on_stdout. rewrite Hd.
    destruct (includes c (Step.marker cfg)), (Step.ready st) eqn:R; simpl;
      rewrite ?Hd, ?R; try reflexivity;
      destruct (Step.settle_delay cfg); reflexivity.
  - exact Hd.
  - unfold Step.on_close, Step.set_outcome.
    destruct code as [z|]; [destruct (negb (z =? 0)%Z)|]; exact Hd.
Qed.

Lemma ready_run_events (cfg : Step.config) (evs : list (N * pevent)) :
  Step.ready (Step.run_events cfg evs) =
  Step.ready_after cfg (stdout_chunks (map snd evs)).
Proof.
  induction evs as [|[t e] evs IH] using rev_ind; [reflexivity|].
  unfold Step.run_events in *. rewrite fold_left_app, map_app.
  cbn [fold_left map snd].
  rewrite stdout_chunks_snoc, ready_handle, IH.
  destruct e; rewrite ?app_nil_r; try reflexivity.
  rewrite ready_after_snoc. reflexivity.
Qed.

Lemma vars_run (evs : list pevent) :
  Deploy.vars (fold_left Deploy.handle evs Deploy.init) =
  Deploy.scan (stdout_chunks evs).
Proof.
  induction evs as [|e evs IH] using rev_ind; [reflexivity|].
  rewrite fold_left_app, stdout_chunks_snoc. simpl.
  destruct e as [c| |code]; rewrite ?app_nil_r.
  - simpl. rewrite IH. unfold Deploy.scan. rewrite fold_left_app. reflexivity.
  - exact IH.
  - rewrite <- IH. unfold Deploy.on_close.
    destruct code as [[| |]|]; reflexivity.
Qed.

End Chunks.

(** C3, as the code has it.  The handlers scan every chunk on its own and
    keep no buffer: the ready flag is set exactly when some single chunk
    contains the marker, and the deployment handler keeps, for each of the
    two patterns, the capture of the last chunk in which the pattern
    matches.  A marker found in the chunks is also found in the unsplit
    text, and a text that arrives as one chunk is scanned as the unsplit
    text is.  The ready flag of a step and the two variables of the
    deployment step are these results for the chunks that the process
    wrote to [stdout]. *)
Theorem C3_matching_is_per_chunk
        (cfg : Step.config) (chunks : list jsstring) (text : jsstring) :
  Step.ready_after cfg chunks = some_chunk_includes chunks (Step.marker cfg)
  /\ (Step.ready_after cfg chunks = true ->
      includes (List.concat chunks) (Step.marker cfg) = true)
  /\ Step.ready_after cfg [text] = includes text (Step.marker cfg)
  /\ Deploy.scan chunks =
     {| Deploy.contractAddress := last_capture address_here chunks;
        Deploy.networkId := last_capture network_here chunks |}
  /\ Deploy.scan [text] =
     {| Deploy.contractAddress :=
          match match_group address_here text with Some g => g | None => [] end;
        Deploy.networkId :=
          match match_group network_here text with Some g => g | None => [] end |}
  /\ (forall evs : list (N * pevent),
        Step.ready (Step.run_events cfg evs) =
        Step.ready_after cfg (stdout_chunks (map snd evs)))
  /\ (forall evs : list pevent,
        Deploy.vars (fold_left Deploy.handle evs Deploy.init) =
        Deploy.scan (stdout_chunks evs)).
Proof.
  repeat split; [| | | | | apply ready_run_events | apply vars_run].
  - apply ready_after_spec.
  - rewrite ready_after_spec. apply includes_concat.
  - rewrite ready_after_spec. unfold some_chunk_includes. simpl.
    apply orb_false_r.
  - apply scan_spec.
  - rewrite scan_spec. unfold last_capture, has_match. simpl.
    destruct (match_group address_here text) eqn:Ea,
             (match_group network_here text) eqn:En;
      rewrite ?Ea, ?En; reflexivity.
Qed.

Lemma C3_matching_is_per_chunk_witness :
  Step.ready_after Step.ganache [lit "RPC "; lit "Listening on 127.0.0.1:7545"] = true
  /\ includes (List.concat [lit "RPC "; lit "Listening on 127.0.0.1:7545"])
              (Step.marker Step.ganache) = true.
Proof.
  split.
  - reflexivity.
  - apply (C3_matching_is_per_chunk Step.ganache
             [lit "RPC "; lit "Listening on 127.0.0.1:7545"] []).
    reflexivity.
Defined.

(** C3 as stated fails: a marker split over two chunks is missed although
    the unsplit text contains it, and a network id split over two chunks is
    captured in part. *)
Lemma C3_split_text_differs :
  Step.ready_after Step.ganache [lit "Listening"; lit " on"] = false
  /\ Step.ready_after Step.ganache [List.concat [lit "Listening"; lit " on"]] = true
  /\ Deploy.networkId (Deploy.scan [lit "Network id: 57"; lit "77"]) = lit "57"
  /\ Deploy.networkId
       (Deploy.scan [List.concat [lit "Network id: 57"; lit "77"]]) = lit "5777".
Proof. repeat split; vm_compute; reflexivity. Qed.

(** ** The configuration patch: C5, C7 *)

(** C5, as the code has it.  When the declaration is absent from a readable
    artifact, [updateServerConfig] writes the artifact back unchanged and
    returns normally: no error is raised. *)
Theorem C5_absent_pattern_is_a_silent_noop
        (content v : jsstring) (w : world) :
  regex_search locator_here content = None ->
  server_index_js w = Some content ->
  updateServerConfig v w = (Returned tt, w).
Proof.
  intros Habs Hfile. unfold updateServerConfig. rewrite Hfile.
  rewrite (patch_absent v content Habs). rewrite <- Hfile.
  destruct w; reflexivity.
Qed.

Lemma C5_absent_pattern_is_a_silent_noop_witness :
  updateServerConfig (lit "5777") (initial (Some (lit "const port = 5000;")))
  = (Returned tt, initial (Some (lit "const port = 5000;"))).
Proof.
  apply (C5_absent_pattern_is_a_silent_noop (lit "const port = 5000;")).
  - vm_compute. reflexivity.
  - reflexivity.
Defined.

(** C5 as stated fails: on an artifact without the declaration the patcher
    does not throw, it returns and leaves the text as it was. *)
Lemma C5_no_error_when_pattern_absent :
  regex_search locator_here (lit "const port = 5000;") = None
  /\ fst (updateServerConfig (lit "5777")
            (initial (Some (lit "const port = 5000;")))) = Returned tt
  /\ server_index_js
       (snd (updateServerConfig (lit "5777")
               (initial (Some (lit "const port = 5000;")))))
     = Some (lit "const port = 5000;").
Proof. repeat split; vm_compute; reflexivity. Qed.

(** C7, as the code has it.  For a value without quote and dollar sign that
    does not begin with a semicolon -- every network id that the deployment
    step yields is a string of digits or empty, hence such a value -- the
    patch is idempotent: on every artifact text, patching twice gives the
    text that patching once gives, and running [updateServerConfig] twice
    leaves the world that running it once leaves. *)
Theorem C7_patch_idempotent_for_plain_values
        (content v : jsstring) (w : world) :
  plain_value v = true ->
  patch v (patch v content) = patch v content
  /\ (updateServerConfig v ;; updateServerConfig v) w = updateServerConfig v w.
Proof.
  intros Hv. apply plain_value_parts in Hv as (Hq & Hd & Hs).
  assert (Hidem : forall s, patch v (patch v s) = patch v s).
  { intros s. destruct (regex_search locator_here s) as [[pre m]|] eqn:E.
    - rewrite (patch_plain v s pre m Hd E).
      apply (patch_plain v _ pre
               {| m_matched := template v; m_group := []; m_rest := m_rest m |} Hd).
      apply (regex_search_patched s); assumption.
    - rewrite (patch_absent v s E). apply patch_absent, E. }
  split; [apply Hidem|].
  unfold bind, updateServerConfig. destruct (server_index_js w) eqn:F.
  - cbn [server_index_js]. rewrite Hidem. reflexivity.
  - reflexivity.
Qed.

Lemma C7_patch_idempotent_for_plain_values_witness :
  plain_value (lit "5777") = true
  /\ patch (lit "5777") (patch (lit "5777") (lit "const networkId = '';"))
     = patch (lit "5777") (lit "const networkId = '';").
Proof.
  split.
  - reflexivity.
  - apply (C7_patch_idempotent_for_plain_values
             (lit "const networkId = '';") (lit "5777") (initial None)).
    reflexivity.
Defined.

(** C7 as stated fails for a value with a replacement pattern: with [$&]
    as the value, each patch wraps the declaration once more. *)
Lemma C7_not_idempotent_for_every_value :
  regex_search locator_here (lit "const networkId = '';") <> None
  /\ patch (lit "$&") (patch (lit "$&") (lit "const networkId = '';"))
     <> patch (lit "$&") (lit "const networkId = '';").
Proof. split; intros H; vm_compute in H; discriminate H. Qed.

(** ** The readiness steps: C4, C8, C10 *)

(** Case analysis over the handlers of a step. *)
Ltac step_unfold :=
  unfold Step.handle, Step.finish, Step.fire_due, Step.fire_timeout,
    Step.fire_settle, Step.on_timeout, Step.on_settle, Step.on_stdout,
    Step.on_close, Step.set_outcome in *.

Ltac step_cases :=
  repeat (simpl in *;
          match goal with
          | |- context [match ?x with _ => _ end] => destruct x eqn:?
          | H : context [match ?x with _ => _ end] |- _ => destruct x eqn:?
          end);
  simpl in *.

Section StepFacts.

Variable cfg : Step.config.

Lemma resolve_settled {A} (a : A) (p : promise A) :
  p <> Pending -> resolve a p = p.
Proof. destruct p; [contradiction | reflexivity | reflexivity]. Qed.

Lemma reject_settled {A} (e : error) (p : promise A) :
  p <> Pending -> reject e p = p.
Proof. destruct p; [contradiction | reflexivity | reflexivity]. Qed.

(** A settled promise keeps its value whatever runs later. *)
Lemma outcome_on_stdout (now : N) (c : jsstring) (st : Step.state) :
  Step.outcome st <> Pending ->
  Step.outcome (Step.on_stdout cfg now c st) = Step.outcome st.
Proof.
  intros H. unfold Step.on_stdout.
  destruct (includes c (Step.marker cfg) && negb (Step.ready st));
    [|reflexivity].
  destruct (Step.settle_delay cfg); simpl; [reflexivity|].
  apply resolve_settled, H.
Qed.

Lemma outcome_on_close (code : option Z) (st : Step.state) :
  Step.outcome st <> Pending ->
  Step.outcome (Step.on_close cfg code st) = Step.outcome st.
Proof.
  intros H. unfold Step.on_close. destruct code as [c|]; [|reflexivity].
  destruct (negb (c =? 0)%Z); [|reflexivity].
  simpl. apply reject_settled, H.
Qed.

Lemma outcome_fire_timeout (st : Step.state) :
  Step.outcome st <> Pending ->
  Step.outcome (Step.fire_timeout cfg st) = Step.outcome st.
Proof.
  intros H. unfold Step.fire_timeout, Step.on_timeout. simpl.
  destruct (negb (Step.ready st)); [|reflexivity].
  simpl. apply reject_settled, H.
Qed.

Lemma outcome_fire_settle (st : Step.state) :
  Step.outcome st <> Pending ->
  Step.outcome (Step.fire_settle st) = Step.outcome st.
Proof.
  intros H. unfold Step.fire_settle, Step.on_settle. simpl.
  apply resolve_settled, H.
Qed.

Lemma outcome_fire_due (now : N) (st : Step.state) :
  Step.outcome st <> Pending ->
  Step.outcome (Step.fire_due cfg now st) = Step.outcome st.
Proof.
  intros H. unfold Step.fire_due.
  set (st1 := if Step.timeout_armed st && (Step.timeout cfg <=? now)
              then Step.fire_timeout cfg st else st).
  assert (H1 : Step.outcome st1 = Step.outcome st).
  { subst st1. destruct (_ && _); [apply outcome_fire_timeout, H | reflexivity]. }
  destruct (Step.settle_due st1) as [due|]; [|exact H1].
  destruct (due <=? now); [|exact H1].
  rewrite outcome_fire_settle; [exact H1 | rewrite H1; exact H].
Qed.

Lemma outcome_handle (st : Step.state) (ev : N * pevent) :
  Step.outcome st <> Pending ->
  Step.outcome (Step.handle cfg st ev) = Step.outcome st.
Proof.
  intros H. destruct ev as [now e]. unfold Step.handle.
  pose proof (outcome_fire_due now st H) as H1.
  assert (H2 : Step.outcome (Step.fire_due cfg now st) <> Pending)
    by (rewrite H1; exact H).
  destruct e.
  - rewrite outcome_on_stdout; assumption.
  - exact H1.
  - rewrite outcome_on_close; assumption.
Qed.

Lemma outcome_fold (evs : list (N * pevent)) (st : Step.state) :
  Step.outcome st <> Pending ->
  Step.outcome (fold_left (Step.handle cfg) evs st) = Step.outcome st.
Proof.
  revert st; induction evs as [|ev evs IH]; intros st H; simpl.
  - reflexivity.
  - rewrite IH; [apply outcome_handle, H|].
    rewrite outcome_handle; exact H.
Qed.

Lemma outcome_finish (st : Step.state) :
  Step.outcome st <> Pending ->
  Step.outcome (Step.finish cfg st) = Step.outcome st.
Proof.
  intros H. unfold Step.finish.
  set (st1 := if Step.timeout_armed st then Step.fire_timeout cfg st else st).
  assert (H1 : Step.outcome st1 = Step.outcome st).
  { subst st1. destruct (Step.timeout_armed st);
      [apply outcome_fire_timeout, H | reflexivity]. }
  destruct (Step.settle_due st1); [|exact H1].
  rewrite outcome_fire_settle; [exact H1 | rewrite H1; exact H].
Qed.

Lemma run_events_app (evs later : list (N * pevent)) :
  Step.run_events cfg (evs ++ later) =
  fold_left (Step.handle cfg) later (Step.run_events cfg evs).
Proof. unfold Step.run_events. apply fold_left_app. Qed.

Lemma run_settled (evs later : list (N * pevent)) :
  Step.outcome (Step.run_events cfg evs) <> Pending ->
  Step.run cfg (evs ++ later) = Step.outcome (Step.run_events cfg evs).
Proof.
  intros H. unfold Step.run. rewrite run_events_app.
  rewrite outcome_finish.
  - apply outcome_fold, H.
  - rewrite outcome_fold; exact H.
Qed.

(** Before the start-up timer is due, and without a deferred [resolve]
    that is due, no timer runs. *)
Lemma fire_due_early (now : N) (st : Step.state) :
  now < Step.timeout cfg -> Step.settle_due st = None ->
  Step.fire_due cfg now st = st.
Proof.
  intros Ht Hs. unfold Step.fire_due.
  replace (Step.timeout cfg <=? now) with false
    by (symmetry; apply N.leb_gt; exact Ht).
  rewrite andb_false_r, Hs. reflexivity.
Qed.

(** Harmless events leave the closure as it was at the spawn. *)
Lemma harmless_keep_init (evs : list (N * pevent)) :
  forallb (harmless cfg) evs = true -> Step.run_events cfg evs = Step.init.
Proof.
  unfold Step.run_events.
  induction evs as [|[now e] evs IH] using rev_ind; [reflexivity|].
  rewrite forallb_app, fold_left_app. simpl. rewrite andb_true_r.
  intros H. apply andb_true_iff in H as [Hevs H]. rewrite (IH Hevs).
  unfold harmless, early in H. simpl in H.
  apply andb_true_iff in H as [Ht He]. apply N.ltb_lt in Ht.
  rewrite fire_due_early by (assumption || reflexivity).
  destruct e as [c| |[code|]].
  - unfold Step.on_stdout. apply negb_true_iff in He. rewrite He. reflexivity.
  - reflexivity.
  - unfold Step.on_close. rewrite He. reflexivity.
  - reflexivity.
Qed.

Lemma silent_harmless (evs : list (N * pevent)) :
  forallb (silent cfg) evs = true -> forallb (harmless cfg) evs = true.
Proof.
  rewrite !forallb_forall. intros H ev Hin. specialize (H ev Hin).
  unfold silent, harmless in *. apply andb_true_iff in H as [-> H].
  destruct (snd ev); [exact H | exact H | discriminate].
Qed.

Lemma progress_init : progress Step.init.
Proof. intros _. right. auto. Qed.

Lemma progress_fire_timeout (st : Step.state) :
  progress st -> progress (Step.fire_timeout cfg st).
Proof.
  unfold progress, Step.fire_timeout, Step.on_timeout. simpl.
  destruct (Step.ready st) eqn:R; simpl.
  - intros H P. destruct (H P) as [[_ Hs]|[Hr _]]; [|discriminate].
    left. auto.
  - intros H P. destruct (Step.outcome st); discriminate.
Qed.

Lemma progress_fire_settle (st : Step.state) :
  progress (Step.fire_settle st).
Proof.
  unfold progress, Step.fire_settle, Step.on_settle. simpl.
  destruct (Step.outcome st); discriminate.
Qed.

Lemma progress_fire_due (now : N) (st : Step.state) :
  progress st -> progress (Step.fire_due cfg now st).
Proof.
  intros H. unfold Step.fire_due.
  set (st1 := if Step.timeout_armed st && (Step.timeout cfg <=? now)
              then Step.fire_timeout cfg st else st).
  assert (H1 : progress st1).
  { subst st1. destruct (_ && _); [apply progress_fire_timeout, H | exact H]. }
  destruct (Step.settle_due st1) as [due|]; [|exact H1].
  destruct (due <=? now); [apply progress_fire_settle | exact H1].
Qed.

Lemma progress_handle (st : Step.state) (ev : N * pevent) :
  progress st -> progress (Step.handle cfg st ev).
Proof.
  intros H. destruct ev as [now e]. unfold Step.handle.
  pose proof (progress_fire_due now st H) as H1.
  set (st1 := Step.fire_due cfg now st) in *.
  destruct e as [c| |code].
  - unfold Step.on_stdout.
    destruct (includes c (Step.marker cfg) && negb (Step.ready st1)) eqn:E;
      [|exact H1].
    destruct (Step.settle_delay cfg); unfold progress; simpl.
    + intros _. left. split; [reflexivity | discriminate].
    + destruct (Step.outcome st1); discriminate.
  - exact H1.
  - unfold Step.on_close. destruct code as [c|]; [|exact H1].
    destruct (negb (c =? 0)%Z); [|exact H1].
    unfold progress. simpl. destruct (Step.outcome st1); discriminate.
Qed.

Lemma progress_run_events (evs : list (N * pevent)) :
  progress (Step.run_events cfg evs).
Proof.
  unfold Step.run_events.
  induction evs as [|ev evs IH] using rev_ind; [apply progress_init|].
  rewrite fold_left_app. simpl. apply progress_handle, IH.
Qed.

Lemma finish_settles (st : Step.state) :
  progress st -> Step.outcome (Step.finish cfg st) <> Pending.
Proof.
  intros H.
  assert (D : Step.outcome st = Pending \/ Step.outcome st <> Pending).
  { destruct (Step.outcome st);
      [left; reflexivity | right; discriminate | right; discriminate]. }
  destruct D as [O | O].
  - unfold Step.finish. destruct (H O) as [[R S] | [R T]].
    + set (st1 := if Step.timeout_armed st
                  then Step.fire_timeout cfg st else st).
      assert (E : Step.settle_due st1 = Step.settle_due st)
        by (subst st1; destruct (Step.timeout_armed st);
            [unfold Step.fire_timeout, Step.on_timeout; simpl; rewrite R|];
            reflexivity).
      rewrite E. destruct (Step.settle_due st); [|contradiction].
      unfold Step.fire_settle, Step.on_settle. simpl.
      destruct (Step.outcome st1); discriminate.
    + rewrite T. unfold Step.fire_timeout, Step.on_timeout. simpl.
      rewrite R, O. simpl.
      destruct (Step.settle_due st); discriminate.
  - rewrite outcome_finish; exact O.
Qed.

(** Every run of the step settles its promise. *)
Lemma run_settles (evs : list (N * pevent)) : Step.run cfg evs <> Pending.
Proof. apply finish_settles, progress_run_events. Qed.

Lemma settle_implies_ready_handle (st : Step.state) (ev : N * pevent) :
  settle_implies_ready st -> settle_implies_ready (Step.handle cfg st ev).
Proof.
  destruct st as [r o ta sd], ev as [now e].
  unfold settle_implies_ready. step_unfold. simpl. intros H.
  destruct r; [step_cases; reflexivity|].
  destruct sd as [d|]; [discriminate H; discriminate|].
  step_cases; intros; congruence.
Qed.

Lemma settle_implies_ready_run_events (evs : list (N * pevent)) :
  settle_implies_ready (Step.run_events cfg evs).
Proof.
  unfold Step.run_events.
  induction evs as [|ev evs IH] using rev_ind.
  - intros H. contradiction H. reflexivity.
  - rewrite fold_left_app. simpl. apply settle_implies_ready_handle, IH.
Qed.

(** If the timers due at some time fulfil the promise, so do the timers
    that run at the end. *)
Lemma fire_due_finish (now : N) (st : Step.state) :
  settle_implies_ready st ->
  Step.outcome (Step.fire_due cfg now st) = Fulfilled tt ->
  Step.outcome (Step.finish cfg st) = Fulfilled tt.
Proof.
  destruct st as [r o ta sd].
  unfold settle_implies_ready. step_unfold. simpl. intros H.
  destruct o as [|[]|e].
  - destruct sd as [d|].
    + rewrite H by discriminate. step_cases; intros; congruence.
    + step_cases; intros; congruence.
  - step_cases; intros; congruence.
  - step_cases; intros; congruence.
Qed.

Lemma resolved_by_run (evs : list (N * pevent)) (t : N) :
  resolved_by cfg evs t -> Step.run cfg evs = Fulfilled tt.
Proof.
  apply fire_due_finish, settle_implies_ready_run_events.
Qed.

Lemma resolved_by_later (evs later : list (N * pevent)) (t : N) (e : pevent) :
  resolved_by cfg evs t ->
  Step.run cfg (evs ++ (t, e) :: later) = Fulfilled tt.
Proof.
  unfold resolved_by. intros H.
  assert (H1 : Step.outcome (Step.run_events cfg (evs ++ [(t, e)])) = Fulfilled tt).
  { rewrite run_events_app. simpl.
    set (st := Step.run_events cfg evs) in *.
    destruct e; simpl.
    - rewrite outcome_on_stdout; [exact H | rewrite H; discriminate].
    - exact H.
    - rewrite outcome_on_close; [exact H | rewrite H; discriminate]. }
  change (evs ++ (t, e) :: later) with (evs ++ [(t, e)] ++ later).
  rewrite app_assoc, run_settled; [exact H1 | rewrite H1; discriminate].
Qed.

Lemma no_timeout_failure_handle (st : Step.state) (ev : N * pevent) :
  no_timeout_failure cfg st -> no_timeout_failure cfg (Step.handle cfg st ev).
Proof.
  destruct st as [r o ta sd], ev as [now e].
  unfold no_timeout_failure. step_unfold. simpl. intros [-> H].
  destruct o as [|[]|err]; step_cases; split; congruence.
Qed.

Lemma no_timeout_failure_fold (evs : list (N * pevent)) (st : Step.state) :
  no_timeout_failure cfg st ->
  no_timeout_failure cfg (fold_left (Step.handle cfg) evs st).
Proof.
  revert st; induction evs as [|ev evs IH]; intros st H; simpl; [exact H|].
  apply IH, no_timeout_failure_handle, H.
Qed.

Lemma no_timeout_failure_finish (st : Step.state) :
  no_timeout_failure cfg st ->
  Step.outcome (Step.finish cfg st) <> Rejected (StartupTimeout (Step.who cfg)).
Proof.
  destruct st as [r o ta sd].
  unfold no_timeout_failure. step_unfold. simpl. intros [-> H].
  destruct o as [|[]|err]; step_cases; congruence.
Qed.

Lemma timeout_ahead_handle (st : Step.state) (ev : N * pevent) :
  early cfg ev = true -> timeout_ahead cfg st ->
  timeout_ahead cfg (Step.handle cfg st ev).
Proof.
  destruct st as [r o ta sd], ev as [now e].
  unfold timeout_ahead, early. step_unfold. simpl. intros Ht [-> H].
  apply N.ltb_lt, N.leb_gt in Ht. rewrite Ht. simpl.
  destruct o as [|[]|err]; step_cases; split; congruence.
Qed.

Lemma timeout_ahead_run_events (evs : list (N * pevent)) :
  forallb (early cfg) evs = true -> timeout_ahead cfg (Step.run_events cfg evs).
Proof.
  unfold Step.run_events.
  induction evs as [|ev evs IH] using rev_ind.
  - intros _. split; [reflexivity | discriminate].
  - rewrite forallb_app, fold_left_app. simpl. rewrite andb_true_r.
    intros H. apply andb_true_iff in H as [H1 H2].
    apply timeout_ahead_handle; auto.
Qed.

Lemma match_sets_ready (st : Step.state) (t : N) (c : jsstring) :
  t < Step.timeout cfg -> includes c (Step.marker cfg) = true ->
  timeout_ahead cfg st -> no_timeout_failure cfg (Step.handle cfg st (t, Stdout c)).
Proof.
  destruct st as [r o ta sd].
  unfold timeout_ahead, no_timeout_failure. step_unfold. simpl.
  intros Ht Hc [-> H]. apply N.leb_gt in Ht. rewrite Ht, Hc. simpl.
  destruct r, o as [|[]|err]; step_cases; split; congruence.
Qed.

Lemma run_after_harmless (before after : list (N * pevent)) :
  forallb (harmless cfg) before = true ->
  Step.run cfg (before ++ after) =
  Step.outcome (Step.finish cfg (fold_left (Step.handle cfg) after Step.init)).
Proof.
  intros H. unfold Step.run. rewrite run_events_app, (harmless_keep_init _ H).
  reflexivity.
Qed.

Lemma timeout_fires_first (t : N) (e : pevent) :
  Step.timeout cfg <= t ->
  Step.outcome (Step.handle cfg Step.init (t, e)) =
  Rejected (StartupTimeout (Step.who cfg)).
Proof.
  intros Ht. apply N.leb_le in Ht. step_unfold. simpl. rewrite Ht. simpl.
  step_cases; reflexivity.
Qed.

End StepFacts.

(** C4, as the code has it.  When the process of a readiness step closes
    before the start-up timer is due and no chunk so far contained the
    marker, the step fails: with [ProcessExitedEarly] if the exit code is a
    number other than 0, and with [StartupTimeout] if the exit code is 0 or
    [null], which the ['close'] handler ignores.  No run of a step leaves
    its promise pending. *)
Theorem C4_exit_before_marker
        (cfg : Step.config) (before : list (N * pevent)) (t : N)
        (code : option Z) (evs : list (N * pevent)) :
  (forallb (silent cfg) before = true -> t < Step.timeout cfg ->
   Step.run cfg (before ++ [(t, Close code)]) =
   Rejected
     match code with
     | Some c => if (c =? 0)%Z then StartupTimeout (Step.who cfg)
                 else ProcessExitedEarly (Step.who cfg) c
     | None => StartupTimeout (Step.who cfg)
     end)
  /\ Step.run cfg evs <> Pending.
Proof.
  split; [|apply run_settles].
  intros Hb Ht. rewrite run_after_harmless by (apply silent_harmless, Hb).
  apply N.leb_gt in Ht. step_unfold. simpl. rewrite Ht. simpl.
  destruct code as [c|]; [destruct (c =? 0)%Z|]; reflexivity.
Qed.

Lemma C4_exit_before_marker_witness :
  Step.run Step.server
    ([(200, Stdout (lit "> start:server")); (250, Stderr (lit "EADDRINUSE"))]
     ++ [(300, Close (Some 1%Z))])
  = Rejected (ProcessExitedEarly ServerProc 1).
Proof.
  apply (C4_exit_before_marker Step.server
           [(200, Stdout (lit "> start:server")); (250, Stderr (lit "EADDRINUSE"))]
           300 (Some 1%Z) []).
  - vm_compute. reflexivity.
  - reflexivity.
Defined.

(** C4 as stated fails for exit code 0: the ['close'] handler does nothing,
    and the step fails only when the start-up timer fires, with
    [StartupTimeout]. *)
Lemma C4_exit_code_zero_is_ignored :
  Step.run Step.ganache [(1000, Close (Some 0%Z))]
  = Rejected (StartupTimeout GanacheProc)
  /\ Step.run Step.server [(1000, Close (Some 0%Z))]
     = Rejected (StartupTimeout ServerProc)
  /\ Step.outcome (Step.run_events Step.ganache [(1000, Close (Some 0%Z))])
     = Pending.
Proof. repeat split; vm_compute; reflexivity. Qed.

(** C8, as the code has it.  (1) If up to the time the start-up timer is
    due no chunk contained the marker and the process did not exit with a
    nonzero code, the step fails with [StartupTimeout].  (2) If a chunk
    with the marker arrives before the start-up timer is due, the step
    never fails with [StartupTimeout]: the callback of the timer does
    nothing once the ready flag is set.  (3) The step has one outcome, that
    of the first call of [resolve] or [reject]: a settled promise is not
    changed by any later event or timer. *)
Theorem C8_timeout_and_single_outcome
        (cfg : Step.config) (before after : list (N * pevent))
        (t : N) (c : jsstring) (st : Step.state) (ev : N * pevent) :
  (forallb (harmless cfg) before = true ->
   match after with [] => True | (t', _) :: _ => Step.timeout cfg <= t' end ->
   Step.run cfg (before ++ after) = Rejected (StartupTimeout (Step.who cfg)))
  /\ (forallb (early cfg) before = true -> t < Step.timeout cfg ->
      includes c (Step.marker cfg) = true ->
      Step.run cfg (before ++ (t, Stdout c) :: after)
      <> Rejected (StartupTimeout (Step.who cfg)))
  /\ (Step.ready st = true -> Step.on_timeout cfg st = st)
  /\ (Step.outcome st <> Pending ->
      Step.outcome (Step.handle cfg st ev) = Step.outcome st /\
      Step.outcome (Step.finish cfg st) = Step.outcome st).
Proof.
  split; [|split; [|split]].
  - intros Hb Ha. rewrite (run_after_harmless cfg _ _ Hb).
    destruct after as [|[t' e] after].
    + step_unfold. simpl. reflexivity.
    + cbn [fold_left]. pose proof (timeout_fires_first cfg t' e Ha) as H.
      set (st1 := Step.handle cfg Step.init (t', e)) in *.
      assert (H1 : Step.outcome st1 <> Pending) by (rewrite H; discriminate).
      rewrite outcome_finish; rewrite outcome_fold; assumption.
  - intros Hb Ht Hc. unfold Step.run. rewrite run_events_app. simpl.
    apply no_timeout_failure_finish, no_timeout_failure_fold.
    apply match_sets_ready; auto.
    apply timeout_ahead_run_events, Hb.
  - intros R. unfold Step.on_timeout. rewrite R. reflexivity.
  - intros H. split; [apply outcome_handle | apply outcome_finish]; exact H.
Qed.

Lemma C8_timeout_and_single_outcome_witness :
  Step.run Step.ganache
    ([(500, Stdout (lit "ganache v7.9.1"))] ++ [(31000, Stdout (lit "Listening on"))])
  = Rejected (StartupTimeout GanacheProc)
  /\ Step.run Step.ganache
       ([(500, Stdout (lit "ganache v7.9.1"))] ++
        (29000, Stdout (lit "RPC Listening on 127.0.0.1:7545")) ::
        [(31000, Stdout (lit "Listening on"))])
     <> Rejected (StartupTimeout GanacheProc).
Proof.
  split.
  - apply (C8_timeout_and_single_outcome Step.ganache
             [(500, Stdout (lit "ganache v7.9.1"))]
             [(31000, Stdout (lit "Listening on"))] 0 [] Step.init (0, Stderr [])).
    + vm_compute. reflexivity.
    + simpl. lia.
  - apply (C8_timeout_and_single_outcome Step.ganache
             [(500, Stdout (lit "ganache v7.9.1"))]
             [(31000, Stdout (lit "Listening on"))]
             29000 (lit "RPC Listening on 127.0.0.1:7545")
             Step.init (0, Stderr [])).
    + vm_compute. reflexivity.
    + reflexivity.
    + vm_compute. reflexivity.
Defined.

(** C8 as stated fails in its last part: in [startGanache] the marker comes
    first, and a nonzero exit during the two seconds before the deferred
    [resolve] still fails the step. *)
Lemma C8_exit_after_match_decides :
  Step.ready (Step.run_events Step.ganache
                [(1000, Stdout (lit "RPC Listening on 127.0.0.1:7545"))]) = true
  /\ Step.run Step.ganache
       [(1000, Stdout (lit "RPC Listening on 127.0.0.1:7545"));
        (2000, Close (Some 1%Z))]
     = Rejected (ProcessExitedEarly GanacheProc 1).
Proof. split; vm_compute; reflexivity. Qed.

(** ** The data seeder: C6 *)

Section Seeder.

Variable e : env.

Lemma with_sent_same (w : world) : with_sent w (sent w) = w.
Proof. destruct w; reflexivity. Qed.

Lemma harvest_all_submit (items : list item) :
  harvest_all e items = submit e (map item_call items).
Proof.
  induction items as [|i items IH]; simpl; [reflexivity|].
  rewrite IH. reflexivity.
Qed.





Lemma seed_submit (items : list item) (networkId : jsstring) (w : world)
      (j : contract_json) (a : jsstring) :
  artifact e = Some j -> deployed_address j networkId = Some a ->
  interface_error e (abi j) = None -> is_address a = true ->
  seed e items networkId w =
  try_catch (submit e (seeding_calls items)) (fun error => throw error) w.
Proof.
  intros Ha Hd Hi Hw. unfold seed, new_contract.
  rewrite Ha. cbv zeta. rewrite Hd, Hi, Hw, harvest_all_submit. reflexivity.
Qed.

End Seeder.



(** ** The pipeline: C1, C2, C9, C10 *)

Ltac main_unfold :=
  unfold main, startGanache, deployContract, startServer, cleanup,
    updateServerConfig, try_catch, bind, spawn, await, kill, process_exit,
    ret, initial;
  simpl.

Section SeederFrame.

Lemma harvest_all_frame (e : env) (items : list item) (w : world) :
  exists r cs,
    harvest_all e items w = (r, with_sent w cs) /\
    (r = Returned tt \/ exists err, r = Thrown err).
Proof.
  revert w; induction items as [|i items IH]; intros w; simpl.
  - exists (Returned tt), (sent w). rewrite with_sent_same. auto.
  - unfold bind, send. destruct (chain_reply e (sent w) (item_call i)) as [r|].
    + eexists _, (sent w ++ [item_call i]). split; [reflexivity | eauto].
    + destruct (IH {| ganacheProcess := ganacheProcess w;
                      serverProcess := serverProcess w;
                      spawned := spawned w; signalled := signalled w;
                      server_index_js := server_index_js w;
                      sent := sent w ++ [item_call i] |})
        as (r & cs & E & Hr).
      rewrite E. exists r, cs. split; [reflexivity | exact Hr].
Qed.

(** The constructor builds the object or throws; it changes nothing. *)
Lemma new_contract_cases (e : env) (contractABI : option (list jsstring))
      (a : jsstring) (w : world) :
  new_contract e contractABI a w = (Returned tt, w) \/
  exists err, new_contract e contractABI a w = (Thrown err, w).
Proof.
  unfold new_contract, throw, ret.
  destruct (interface_error e contractABI); [eauto|].
  destruct (is_address a); eauto.
Qed.

(** The seeder touches nothing but the record of submitted calls, and it
    returns or throws. *)
Lemma seed_frame (e : env) (items : list item) (networkId : jsstring) (w : world) :
  exists r cs,
    seed e items networkId w = (r, with_sent w cs) /\
    (r = Returned tt \/ exists err, r = Thrown err).
Proof.
  unfold seed, try_catch, throw.
  destruct (artifact e) as [j|].
  - cbv zeta. destruct (deployed_address j networkId) as [a|].
    + unfold bind at 1.
      destruct (new_contract_cases e (abi j) a w) as [H | [err H]]; rewrite H.
      * unfold bind at 1. unfold send at 1.
        destruct (chain_reply e (sent w) farmer_call) as [r|].
        -- eexists _, (sent w ++ [farmer_call]). split; [reflexivity | eauto].
        -- match goal with
           | |- context [harvest_all e items ?w1] =>
               destruct (harvest_all_frame e items w1) as (r & cs & E & Hr);
               rewrite E
           end.
           exists r, cs. destruct Hr as [-> | [err ->]];
             (split; [reflexivity | eauto]).
      * exists (Thrown err), (sent w). rewrite with_sent_same. eauto.
    + exists (Thrown DeploymentArtifactMissing), (sent w).
      rewrite with_sent_same. eauto.
  - exists (Thrown ArtifactNotLoaded), (sent w). rewrite with_sent_same. eauto.
Qed.

End SeederFrame.

(** In [main] the seeder returns or throws, and changes the record of
    submitted calls only. *)
Ltac seed_case :=
  match goal with
  | |- context [createTestData ?e ?n ?w] =>
      let r := fresh "r" in
      let cs := fresh "cs" in
      let E := fresh "E" in
      let Hr := fresh "Hr" in
      destruct (seed_frame e testItems n w) as (r & cs & E & Hr);
      unfold createTestData; rewrite E;
      destruct Hr as [-> | [? ->]]; simpl
  end.

Section PipelineRuns.

Lemma harvest_all_ext (e e' : env) (items : list item) :
  chain_reply e = chain_reply e' -> harvest_all e items = harvest_all e' items.
Proof.
  intros H. induction items as [|i items IH]; simpl; [reflexivity|].
  rewrite IH. unfold send. rewrite H. reflexivity.
Qed.

Lemma new_contract_ext (e e' : env) :
  interface_error e = interface_error e' -> new_contract e = new_contract e'.
Proof. intros H. unfold new_contract. rewrite H. reflexivity. Qed.

Lemma createTestData_ext (e e' : env) :
  artifact e = artifact e' -> interface_error e = interface_error e' ->
  chain_reply e = chain_reply e' ->
  createTestData e = createTestData e'.
Proof.
  intros Ha Hi Hc. unfold createTestData, seed.
  rewrite Ha, (harvest_all_ext e e' testItems Hc), (new_contract_ext e e' Hi).
  unfold send. rewrite Hc. reflexivity.
Qed.

(** [main] sees the events of the two long-lived processes only through
    the outcome of their steps. *)
Lemma main_ext (e e' : env) :
  Step.run Step.ganache (ganache_events e) =
  Step.run Step.ganache (ganache_events e') ->
  migrate_events e = migrate_events e' ->
  artifact e = artifact e' -> interface_error e = interface_error e' ->
  chain_reply e = chain_reply e' ->
  Step.run Step.server (server_events e) =
  Step.run Step.server (server_events e') ->
  main e = main e'.
Proof.
  intros Hg Hm Ha Hi Hc Hs.
  unfold main, startGanache, deployContract, startServer.
  rewrite Hg, Hm, Hs, (createTestData_ext e e' Ha Hi Hc). reflexivity.
Qed.

(** The deployment promise is settled by a ['close'] event only. *)
Lemma deploy_pending_without_close (evs : list pevent) (st : Deploy.state) :
  forallb (fun e => negb (is_close e)) evs = true ->
  Deploy.outcome (fold_left Deploy.handle evs st) = Deploy.outcome st.
Proof.
  revert st; induction evs as [|e evs IH]; intros st H; simpl in *.
  - reflexivity.
  - apply andb_true_iff in H as [He H]. rewrite (IH _ H).
    destruct e; [reflexivity | reflexivity | discriminate].
Qed.

Lemma deploy_settled_closed (evs : list pevent) :
  Deploy.run evs <> Pending -> existsb is_close evs = true.
Proof.
  intros H. destruct (existsb is_close evs) eqn:E; [reflexivity|].
  exfalso. apply H. unfold Deploy.run.
  rewrite deploy_pending_without_close; [reflexivity|].
  rewrite forallb_forall. intros e Hin.
  destruct (is_close e) eqn:C; [|reflexivity].
  assert (existsb is_close evs = true)
    by (apply existsb_exists; exists e; auto).
  congruence.
Qed.

(** Output without a match leaves the two variables empty. *)
Lemma deploy_unmatched (evs : list pevent) :
  forallb unmatched evs = true ->
  fold_left Deploy.handle evs Deploy.init = Deploy.init.
Proof.
  induction evs as [|e evs IH] using rev_ind; [reflexivity|].
  rewrite forallb_app, fold_left_app. simpl. rewrite andb_true_r.
  intros H. apply andb_true_iff in H as [H He]. rewrite (IH H).
  destruct e as [c| |]; [|reflexivity|discriminate].
  simpl in He. apply andb_true_iff in He as [H1 H2].
  unfold has_match in H1, H2. simpl. unfold Deploy.on_stdout.
  destruct (match_group address_here c); [discriminate|].
  destruct (match_group network_here c); [discriminate|]. reflexivity.
Qed.

(** [main] ends in one of two ways: the process exits with status 0, or it
    waits for a promise that is never settled.  The [process.exit(1)] of
    the [catch] block is never reached. *)
Lemma main_exits_zero_or_waits (e : env) (w : world) :
  fst (main e w) = Exited 0 \/ fst (main e w) = Waiting.
Proof.
  destruct w as [gp [sp|] spw sg f snt]; main_unfold;
    (destruct (Step.run Step.ganache (ganache_events e)) as [|[]|err];
     simpl; auto);
    (destruct (Deploy.run (migrate_events e)) as [|d|err]; simpl; auto);
    (destruct f; simpl; auto);
    (seed_case; auto);
    (destruct (Step.run Step.server (server_events e)) as [|[]|err];
     simpl; auto).
Qed.

End PipelineRuns.

(** C1: the code at a failing step.  The network process exits with code 1
    before it is ready, [startGanache] rejects, and [main] ends with exit
    status 0: [cleanup] signals the network process and exits the process
    itself, so that [process.exit(1)] is not reached. *)
Theorem C1_failed_step_exits_with_status_zero :
  Step.run Step.ganache (ganache_events run_ganache_exits)
  = Rejected (ProcessExitedEarly GanacheProc 1)
  /\ main run_ganache_exits (initial None)
     = (Exited 0,
        {| ganacheProcess := Some GanacheProc; serverProcess := None;
           spawned := [GanacheProc];
           signalled := [(GanacheProc, SIGTERM)];
           server_index_js := None; sent := [] |}).
Proof. split; vm_compute; reflexivity. Qed.

(** C2, as the code has it.  The network and the server process are stored
    in the module-level variables at their spawn, the deployment process is
    not: after every run the processes that [cleanup] can reach are the
    spawned ones other than the deployment process, in spawn order.  When
    the run ends in teardown, exactly these have received [SIGTERM], in that
    order, and the deployment process, if it was spawned, has closed
    before. *)
Theorem C2_teardown_reaches_network_and_server
        (e : env) (file : option jsstring) :
  registered (snd (main e (initial file))) =
  filter (fun p => negb (is_migrate p)) (spawned (snd (main e (initial file))))
  /\ (forall s, fst (main e (initial file)) = Exited s ->
      signalled (snd (main e (initial file))) =
      map (fun p => (p, SIGTERM)) (registered (snd (main e (initial file)))))
  /\ (forall s, fst (main e (initial file)) = Exited s ->
      In MigrateProc (spawned (snd (main e (initial file)))) ->
      existsb is_close (migrate_events e) = true).
Proof.
  main_unfold.
  destruct (Step.run Step.ganache (ganache_events e)) as [|[]|err]; simpl.
  - repeat split; discriminate.
  - pose proof (deploy_settled_closed (migrate_events e)) as HD.
    destruct (Deploy.run (migrate_events e)) as [|d|err]; simpl.
    + repeat split; discriminate.
    + destruct file as [content|]; simpl.
      * seed_case.
        -- destruct (Step.run Step.server (server_events e)) as [|[]|err];
             simpl; repeat split; try discriminate; intros;
             apply HD; discriminate.
        -- repeat split; intros; apply HD; discriminate.
      * repeat split; intros; apply HD; discriminate.
    + repeat split; intros; apply HD; discriminate.
  - repeat split. intros s _ [H | []]. discriminate H.
Qed.

Lemma C2_teardown_reaches_network_and_server_witness :
  fst (main run_deploy_fails (initial None)) = Exited 0
  /\ signalled (snd (main run_deploy_fails (initial None)))
     = map (fun p => (p, SIGTERM))
           (registered (snd (main run_deploy_fails (initial None))))
  /\ existsb is_close (migrate_events run_deploy_fails) = true.
Proof.
  split; [vm_compute; reflexivity | split].
  - apply (proj1 (proj2 (C2_teardown_reaches_network_and_server
                           run_deploy_fails None)) 0%Z).
    vm_compute. reflexivity.
  - apply (proj2 (proj2 (C2_teardown_reaches_network_and_server
                           run_deploy_fails None)) 0%Z).
    + vm_compute. reflexivity.
    + vm_compute. auto.
Defined.

(** C2 as stated fails: the deployment process is spawned, and [cleanup]
    cannot reach it; a teardown while the migration runs signals the
    network process only. *)
Lemma C2_deployment_process_is_not_registered :
  In MigrateProc (spawned (snd (main run_deploy_fails (initial None))))
  /\ ~ In MigrateProc (registered (snd (main run_deploy_fails (initial None))))
  /\ signalled (snd (main run_deploy_fails (initial None)))
     = [(GanacheProc, SIGTERM)]
  /\ signalled
       (snd (on_signal SIGINT
               (snd ((startGanache run_deploy_fails ;; spawn MigrateProc)
                       (initial None)))))
     = [(GanacheProc, SIGTERM)].
Proof.
  split; [|split; [|split]].
  - vm_compute. auto.
  - vm_compute. intros [H | []]. discriminate H.
  - vm_compute. reflexivity.
  - vm_compute. reflexivity.
Qed.

(** C9.  When the network step has resolved and the migration exits with
    code 0 after output in which neither pattern matched, [deployContract]
    resolves with two empty strings, and [updateServerConfig] rewrites the
    leftmost declaration of the artifact to the empty value and returns;
    the artifact keeps this content to the end of [main]. *)
Theorem C9_deployment_without_matches
        (e : env) (evs : list pevent) (content pre : jsstring) (m : rmatch) :
  Step.run Step.ganache (ganache_events e) = Fulfilled tt ->
  migrate_events e = evs ++ [Close (Some 0%Z)] ->
  forallb unmatched evs = true ->
  regex_search locator_here content = Some (pre, m) ->
  Deploy.run (migrate_events e)
  = Fulfilled {| Deploy.contractAddress := []; Deploy.networkId := [] |}
  /\ updateServerConfig [] (initial (Some content))
     = (Returned tt,
        initial (Some (pre ++ lit "const networkId = '';" ++ m_rest m)))
  /\ server_index_js (snd (main e (initial (Some content))))
     = Some (pre ++ lit "const networkId = '';" ++ m_rest m).
Proof.
  intros Hg Hm Hu Hs.
  assert (Hd : Deploy.run (migrate_events e)
               = Fulfilled {| Deploy.contractAddress := [];
                              Deploy.networkId := [] |}).
  { rewrite Hm. unfold Deploy.run. rewrite fold_left_app.
    rewrite (deploy_unmatched evs Hu). reflexivity. }
  assert (Hp : patch [] content = pre ++ lit "const networkId = '';" ++ m_rest m).
  { rewrite (patch_plain [] content pre m eq_refl Hs). reflexivity. }
  split; [exact Hd | split].
  - unfold updateServerConfig, initial. simpl. rewrite Hp. reflexivity.
  - main_unfold. rewrite Hg, Hd. simpl. rewrite Hp.
    seed_case; [|reflexivity].
    destruct (Step.run Step.server (server_events e)) as [|[]|err];
      reflexivity.
Qed.

Lemma C9_deployment_without_matches_witness :
  server_index_js
    (snd (main {| ganache_events := ganache_events run_scenario;
                  migrate_events :=
                    [Stdout (lit "Compiling your contracts...")] ++
                    [Close (Some 0%Z)];
                  artifact := Some artifact_5777;
                  interface_error := fun _ => None;
                  chain_reply := fun _ _ => None;
                  server_events := server_events run_scenario |}
               (initial (Some (lit "const networkId = '5777'; // set by setup")))))
  = Some (lit "const networkId = ''; // set by setup").
Proof.
  refine (proj2 (proj2 (C9_deployment_without_matches
           _ [Stdout (lit "Compiling your contracts...")]
           (lit "const networkId = '5777'; // set by setup") []
           {| m_matched := lit "const networkId = '5777';"; m_group := [];
              m_rest := lit " // set by setup" |} _ _ _ _))).
  - vm_compute. reflexivity.
  - reflexivity.
  - vm_compute. reflexivity.
  - vm_compute. reflexivity.
Defined.

(** C10.  Once the promise of a readiness step is fulfilled, a later
    ['close'] of its process, whatever the exit code, and whatever follows
    it, leave the outcome of the step fulfilled; and [main] runs as it runs
    without these events, for the network process and for the server
    process alike. *)
Theorem C10_exit_after_readiness_has_no_effect
        (cfg : Step.config) (evs later : list (N * pevent)) (t : N)
        (code : option Z) (e : env) (w : world) :
  (resolved_by cfg evs t ->
   Step.run cfg (evs ++ (t, Close code) :: later) = Fulfilled tt)
  /\ (resolved_by Step.ganache (ganache_events e) t ->
      main (with_ganache_events e (ganache_events e ++ (t, Close code) :: later)) w
      = main e w)
  /\ (resolved_by Step.server (server_events e) t ->
      main (with_server_events e (server_events e ++ (t, Close code) :: later)) w
      = main e w).
Proof.
  split; [|split].
  - apply resolved_by_later.
  - intros H. rewrite (main_ext _ e); try reflexivity.
    simpl. rewrite (resolved_by_run _ _ _ H).
    apply resolved_by_later, H.
  - intros H. rewrite (main_ext _ e); try reflexivity.
    simpl. rewrite (resolved_by_run _ _ _ H).
    apply resolved_by_later, H.
Qed.

Lemma C10_exit_after_readiness_has_no_effect_witness :
  resolved_by Step.ganache (ganache_events run_scenario) 60000
  /\ main (with_ganache_events run_scenario
             (ganache_events run_scenario ++ [(60000, Close (Some 1%Z))]))
          (initial (Some (lit "const networkId = '';")))
     = main run_scenario (initial (Some (lit "const networkId = '';"))).
Proof.
  split.
  - vm_compute. reflexivity.
  - apply (C10_exit_after_readiness_has_no_effect Step.ganache [] [] 60000
             (Some 1%Z) run_scenario).
    vm_compute. reflexivity.
Defined.

(** ** The scenario of the specification *)

Example scenario_reaches_running :
  main run_scenario (initial (Some (lit "const networkId = '';")))
  = (Waiting,
     {| ganacheProcess := Some GanacheProc; serverProcess := Some ServerProc;
        spawned := [GanacheProc; MigrateProc; ServerProc];
        signalled := [];
        server_index_js := Some (lit "const networkId = '5777';");
        sent := seeding_calls testItems |}).
Proof. vm_compute. reflexivity. Qed.

Example scenario_deployment :
  Deploy.run (migrate_events run_scenario)
  = Fulfilled
      {| Deploy.contractAddress := lit "0xABCDEF0123456789ABCDEF0123456789ABCDEF01";
         Deploy.networkId := lit "5777" |}.
Proof. vm_compute. reflexivity. Qed.

Example includes_listening :
  includes (lit "RPC Listening on 127.0.0.1:7545") (lit "Listening on") = true.
Proof. reflexivity. Qed.

Example interrupt_exits_zero :
  fst (on_signal SIGINT (snd (startGanache run_scenario (initial None))))
  = Exited 0.
Proof. reflexivity. Qed.

(* ------------------------------------------------------------------ *)
(** * Further properties of the script *)

(** ** The readiness steps *)

Section StepOutcomes.

Variable cfg : Step.config.

Lemma settling_handle (due : N) (st : Step.state) (ev : N * pevent) :
  calm due ev = true -> settling due st ->
  settling due (Step.handle cfg st ev).
Proof.
  destruct st as [r o ta sd], ev as [now e].
  unfold settling, calm. simpl. intros H (-> & -> & ->).
  apply andb_true_iff in H as [Ht He].
  apply N.ltb_lt, N.leb_gt in Ht.
  step_unfold. simpl.
  destruct (ta && (Step.timeout cfg <=? now)); simpl; rewrite Ht;
    destruct e as [c| |[z|]]; simpl;
    rewrite ?He, ?andb_false_r; simpl; auto.
Qed.

Lemma settling_fold (due : N) (evs : list (N * pevent)) (st : Step.state) :
  forallb (calm due) evs = true -> settling due st ->
  settling due (fold_left (Step.handle cfg) evs st).
Proof.
  revert st; induction evs as [|ev evs IH]; intros st H Hs; simpl in *.
  - exact Hs.
  - apply andb_true_iff in H as [Hev H]. apply IH; [exact H|].
    apply settling_handle; assumption.
Qed.

Lemma settling_finish (due : N) (st : Step.state) :
  settling due st -> Step.outcome (Step.finish cfg st) = Fulfilled tt.
Proof.
  destruct st as [r o ta sd]. unfold settling. simpl. intros (-> & -> & ->).
  step_unfold. simpl. destruct ta; reflexivity.
Qed.

Lemma settling_due_event (due now : N) (e : pevent) (st : Step.state) :
  due <= now -> settling due st ->
  Step.outcome (Step.handle cfg st (now, e)) = Fulfilled tt.
Proof.
  destruct st as [r o ta sd]. unfold settling. simpl.
  intros Hd (-> & -> & ->). apply N.leb_le in Hd.
  step_unfold. simpl.
  destruct (ta && (Step.timeout cfg <=? now)); simpl; rewrite Hd; simpl;
    step_cases; reflexivity.
Qed.

End StepOutcomes.

(** A step resolves when the marker arrives in time and the process lives
    through the settle delay.  If before the start-up timer is due a chunk
    of [stdout] contains the marker, nothing before it having contained the
    marker or been an exit with a nonzero code, then [startServer], which
    calls [resolve] at once, is fulfilled whatever follows; and
    [startGanache], which defers [resolve] by two seconds, is fulfilled if
    the process does not exit with a nonzero code before the deferred
    [resolve] is due. *)
Theorem step_resolves_after_marker
        (cfg : Step.config) (before quiet rest : list (N * pevent))
        (t : N) (c : jsstring) :
  forallb (harmless cfg) before = true ->
  t < Step.timeout cfg ->
  includes c (Step.marker cfg) = true ->
  match Step.settle_delay cfg with
  | None => True
  | Some d =>
      forallb (calm (t + d)) quiet = true /\
      match rest with [] => True | (t', _) :: _ => t + d <= t' end
  end ->
  Step.run cfg (before ++ (t, Stdout c) :: quiet ++ rest) = Fulfilled tt.
Proof.
  intros Hb Ht Hc Hd. rewrite (run_after_harmless cfg _ _ Hb).
  cbn [fold_left].
  assert (H0 : Step.handle cfg Step.init (t, Stdout c) =
               Step.on_stdout cfg t c Step.init).
  { unfold Step.handle. rewrite fire_due_early by (assumption || reflexivity).
    reflexivity. }
  rewrite H0. unfold Step.on_stdout. rewrite Hc. simpl.
  destruct (Step.settle_delay cfg) as [d|].
  - destruct Hd as [Hq Hr]. rewrite fold_left_app.
    match goal with
    | |- context [fold_left _ quiet ?s] =>
        assert (Hs : settling (t + d) (fold_left (Step.handle cfg) quiet s))
          by (apply settling_fold; [exact Hq | repeat split])
    end.
    destruct rest as [|[t' e] rest].
    + simpl. apply (settling_finish cfg (t + d)), Hs.
    + cbn [fold_left].
      pose proof (settling_due_event cfg (t + d) t' e _ Hr Hs) as H1.
      rewrite outcome_finish; rewrite outcome_fold; rewrite ?H1;
        try reflexivity; discriminate.
  - rewrite outcome_finish; rewrite outcome_fold; simpl;
      try reflexivity; discriminate.
Qed.

Lemma step_resolves_after_marker_witness :
  Step.run Step.ganache
    ([(300, Stdout (lit "ganache v7.9.1")); (400, Stderr (lit "warning"))] ++
     (1200, Stdout (lit "RPC Listening on 127.0.0.1:7545")) ::
     [(1300, Stdout (lit "Listening on"))] ++ [(5000, Close (Some 1%Z))])
  = Fulfilled tt.
Proof.
  apply (step_resolves_after_marker Step.ganache
           [(300, Stdout (lit "ganache v7.9.1")); (400, Stderr (lit "warning"))]
           [(1300, Stdout (lit "Listening on"))] [(5000, Close (Some 1%Z))]).
  - vm_compute. reflexivity.
  - reflexivity.
  - vm_compute. reflexivity.
  - simpl. split; [vm_compute; reflexivity | lia].
Defined.

Section StepKinds.

Variable cfg : Step.config.

Ltac transition_case :=
  first
    [ exfalso; congruence
    | left; reflexivity
    | right; left; repeat split; reflexivity
    | right; right; left; split; reflexivity
    | right; right; right; eexists; split; [reflexivity|];
      split; [|reflexivity];
      match goal with
      | H : negb (_ =? 0)%Z = true |- _ =>
          apply negb_true_iff, Z.eqb_neq in H; exact H
      end ].

(** What one event can do to the promise of a step. *)
Lemma handle_transition (st : Step.state) (t : N) (e : pevent) :
  settle_implies_ready st ->
  Step.outcome (Step.handle cfg st (t, e)) = Step.outcome st
  \/ (Step.outcome st = Pending /\
      Step.outcome (Step.handle cfg st (t, e)) = Fulfilled tt /\
      Step.ready (Step.handle cfg st (t, e)) = true)
  \/ (Step.outcome st = Pending /\
      Step.outcome (Step.handle cfg st (t, e)) =
      Rejected (StartupTimeout (Step.who cfg)))
  \/ (exists c, e = Close (Some c) /\ c <> 0%Z /\
                Step.outcome (Step.handle cfg st (t, e)) =
                Rejected (ProcessExitedEarly (Step.who cfg) c)).
Proof.
  intros Hs.
  assert (D : Step.outcome st = Pending \/ Step.outcome st <> Pending).
  { destruct (Step.outcome st);
      [left; reflexivity | right; discriminate | right; discriminate]. }
  destruct D as [P | P]; [|left; apply outcome_handle, P].
  destruct st as [r o ta sd]. simpl in P. subst o.
  unfold settle_implies_ready in Hs. simpl in Hs.
  destruct sd as [d|].
  - rewrite Hs by discriminate. step_unfold. simpl.
    step_cases; transition_case.
  - step_unfold. simpl. step_cases; transition_case.
Qed.

Lemma finish_transition (st : Step.state) :
  settle_implies_ready st ->
  Step.outcome (Step.finish cfg st) = Step.outcome st
  \/ (Step.outcome st = Pending /\
      Step.outcome (Step.finish cfg st) = Fulfilled tt /\
      Step.ready st = true)
  \/ (Step.outcome st = Pending /\
      Step.outcome (Step.finish cfg st) =
      Rejected (StartupTimeout (Step.who cfg))).
Proof.
  intros Hs.
  assert (D : Step.outcome st = Pending \/ Step.outcome st <> Pending).
  { destruct (Step.outcome st);
      [left; reflexivity | right; discriminate | right; discriminate]. }
  destruct D as [P | P]; [|left; apply outcome_finish, P].
  destruct st as [r o ta sd]. simpl in P. subst o.
  unfold settle_implies_ready in Hs. simpl in Hs.
  destruct sd as [d|].
  - rewrite Hs by discriminate. step_unfold. simpl.
    step_cases; first [exfalso; congruence | auto 6].
  - step_unfold. simpl. step_cases; first [exfalso; congruence | auto 6].
Qed.

Lemma explained_more (evs more : list (N * pevent)) (r : bool)
      (p : promise unit) :
  explained cfg evs r p -> explained cfg (evs ++ more) r p.
Proof.
  intros [H | [H | [H | (t & c & Hc & Hin & H)]]];
    [left | right; left | right; right; left | right; right; right]; auto.
  exists t, c. repeat split; auto. apply in_or_app. auto.
Qed.

Lemma explained_run_events (evs : list (N * pevent)) :
  explained cfg evs (Step.ready (Step.run_events cfg evs))
            (Step.outcome (Step.run_events cfg evs)).
Proof.
  induction evs as [|[t e] evs IH] using rev_ind.
  - left. reflexivity.
  - pose proof (settle_implies_ready_run_events cfg evs) as Hs.
    pose proof (ready_handle cfg (Step.run_events cfg evs) t e) as Hr.
    rewrite run_events_app. cbn [fold_left].
    destruct (handle_transition (Step.run_events cfg evs) t e Hs)
      as [H | [(_ & H & R) | [(_ & H) | (c & -> & Hc & H)]]].
    + rewrite H. apply explained_more.
      destruct IH as [P | [[P R] | [P | P]]];
        [left | right; left | right; right; left | right; right; right]; auto.
      split; [exact P|]. rewrite Hr, R. destruct e; reflexivity.
    + right. left. auto.
    + right. right. left. exact H.
    + right. right. right. exists t, c. repeat split; auto.
      apply in_or_app. right. left. reflexivity.
Qed.

End StepKinds.

(** The outcomes of a readiness step.  Every run of [startGanache] or
    [startServer] ends in one of three ways: fulfilled, and then some single
    chunk of [stdout] contained the marker; rejected with the start-up
    timeout error; or rejected with the exit error, which carries the
    nonzero code of a ['close'] event of the run.  The promise is not left
    pending, and no other error comes out of the step. *)
Theorem step_outcome_kinds (cfg : Step.config) (evs : list (N * pevent)) :
  (Step.run cfg evs = Fulfilled tt /\
   some_chunk_includes (stdout_chunks (map snd evs)) (Step.marker cfg) = true)
  \/ Step.run cfg evs = Rejected (StartupTimeout (Step.who cfg))
  \/ exists t c, c <> 0%Z /\ In (t, Close (Some c)) evs /\
                 Step.run cfg evs = Rejected (ProcessExitedEarly (Step.who cfg) c).
Proof.
  pose proof (run_settles cfg evs) as Hset.
  pose proof (explained_run_events cfg evs) as He.
  pose proof (settle_implies_ready_run_events cfg evs) as Hs.
  pose proof (ready_run_events cfg evs) as Hr.
  rewrite ready_after_spec in Hr.
  unfold Step.run in *.
  destruct (finish_transition cfg (Step.run_events cfg evs) Hs)
    as [H | [(_ & H & R) | (_ & H)]].
  - rewrite H in *.
    destruct He as [P | [[P R] | [P | P]]]; auto.
    + contradiction.
    + left. split; [exact P|]. rewrite <- Hr. exact R.
  - left. split; [exact H|]. rewrite <- Hr. exact R.
  - right. left. exact H.
Qed.

(** ** The deployment step *)

Section DeployFacts.

Lemma deploy_outcome_handle (st : Deploy.state) (e : pevent) :
  Deploy.outcome st <> Pending ->
  Deploy.outcome (Deploy.handle st e) = Deploy.outcome st.
Proof.
  intros H. destruct e as [c| |code]; [reflexivity | reflexivity |].
  unfold Deploy.handle, Deploy.on_close.
  destruct code as [[| |]|]; simpl;
    first [apply resolve_settled | apply reject_settled]; exact H.
Qed.

Lemma deploy_outcome_fold (evs : list pevent) (st : Deploy.state) :
  Deploy.outcome st <> Pending ->
  Deploy.outcome (fold_left Deploy.handle evs st) = Deploy.outcome st.
Proof.
  revert st; induction evs as [|e evs IH]; intros st H; simpl; [reflexivity|].
  rewrite IH; [apply deploy_outcome_handle, H|].
  rewrite deploy_outcome_handle; exact H.
Qed.

Lemma address_here_shaped (s : jsstring) (m : rmatch) :
  address_here s = Some m -> address_shaped (m_group m) = true.
Proof.
  unfold address_here.
  destruct (strip_prefix _ s) as [r|]; [|discriminate].
  destruct (span is_space r) as [ws r1].
  destruct (strip_prefix (lit "0x") r1) as [r2|]; [|discriminate].
  remember (firstn 40 r2) as h eqn:Eh. clear Eh.
  remember (skipn 40 r2) as k eqn:Ek. clear Ek.
  destruct ((List.length h =? 40)%nat) eqn:L; [|discriminate].
  destruct (forallb is_hex h) eqn:Hx; [|discriminate].
  intros [= <-]. unfold address_shaped, starts_with. simpl.
  rewrite L, Hx. reflexivity.
Qed.

Lemma network_here_digits (s : jsstring) (m : rmatch) :
  network_here s = Some m ->
  m_group m <> [] /\ forallb is_digit (m_group m) = true /\
  match m_rest m with [] => True | c :: _ => is_digit c = false end.
Proof.
  unfold network_here.
  destruct (strip_prefix _ s) as [r|]; [|discriminate].
  destruct (span is_space r) as [ws r1].
  destruct (span is_digit r1) as [digits r2] eqn:Es.
  apply span_spec in Es as (_ & Hd & Hr).
  destruct digits as [|c digits]; [discriminate|].
  intros [= <-]. cbn [m_group m_rest]. repeat split; auto. discriminate.
Qed.

Lemma match_group_here (here : jsstring -> option rmatch) (s g : jsstring) :
  match_group here s = Some g ->
  exists suffix m, here suffix = Some m /\ m_group m = g.
Proof.
  unfold match_group.
  destruct (regex_search here s) as [[pre m]|] eqn:E; [|discriminate].
  intros [= <-]. apply regex_search_sound in E as (suffix & _ & H). eauto.
Qed.

Lemma on_stdout_shaped (c : jsstring) (v : Deploy.deployment) :
  deployment_shaped v = true -> deployment_shaped (Deploy.on_stdout c v) = true.
Proof.
  intros H. unfold deployment_shaped in H.
  apply andb_true_iff in H as [Ha Hn].
  unfold Deploy.on_stdout.
  destruct (match_group address_here c) as [ga|] eqn:Ea;
    destruct (match_group network_here c) as [gn|] eqn:En;
    unfold deployment_shaped; cbn [Deploy.contractAddress Deploy.networkId];
    apply andb_true_iff; split; auto.
  all: try (apply match_group_here in Ea as (sa & ma & Ha1 & <-);
            rewrite (address_here_shaped _ _ Ha1);
            destruct (m_group ma); reflexivity).
  all: apply match_group_here in En as (sn & mn & Hn1 & <-);
       apply network_here_digits in Hn1; tauto.
Qed.

Lemma run_shaped (evs : list pevent) (st : Deploy.state) :
  deployment_shaped (Deploy.vars st) = true ->
  (forall d, Deploy.outcome st = Fulfilled d -> deployment_shaped d = true) ->
  forall d, Deploy.outcome (fold_left Deploy.handle evs st) = Fulfilled d ->
            deployment_shaped d = true.
Proof.
  revert st; induction evs as [|e evs IH]; intros st Hv Ho; simpl; [exact Ho|].
  apply IH.
  - destruct e as [c| |code]; simpl; auto.
    + apply on_stdout_shaped, Hv.
    + unfold Deploy.on_close. destruct code as [[| |]|]; exact Hv.
  - destruct e as [c| |code]; simpl; auto.
    unfold Deploy.on_close.
    destruct code as [[| |]|]; simpl; destruct (Deploy.outcome st) eqn:O;
      simpl; intros d [= <-]; auto.
Qed.

Lemma shaped_id_plain (d : Deploy.deployment) :
  deployment_shaped d = true -> plain_value (Deploy.networkId d) = true.
Proof.
  unfold deployment_shaped. intros H. apply andb_true_iff in H as [_ H].
  apply digits_plain, H.
Qed.

Lemma patch_twice (v s : jsstring) :
  plain_value v = true -> patch v (patch v s) = patch v s.
Proof.
  intros Hv. apply plain_value_parts in Hv as (Hq & Hd & Hs).
  destruct (regex_search locator_here s) as [[pre m]|] eqn:E.
  - rewrite (patch_plain v s pre m Hd E).
    apply (patch_plain v _ pre
             {| m_matched := template v; m_group := []; m_rest := m_rest m |} Hd).
    apply (regex_search_patched s); assumption.
  - rewrite (patch_absent v s E). apply patch_absent, E.
Qed.

End DeployFacts.

(** The first ['close'] decides the deployment step.  When the migration
    closes with code 0, [deployContract] resolves with the values that the
    chunks of [stdout] so far have left in the two variables; with any
    other code, [null] included, it rejects.  Whatever the process emits
    after that is not seen in the result. *)
Theorem deploy_first_close_decides
        (evs later : list pevent) (code : option Z) :
  still_open evs = true ->
  Deploy.run (evs ++ Close code :: later) =
  match code with
  | Some c =>
      if (c =? 0)%Z then Fulfilled (Deploy.scan (stdout_chunks evs))
      else Rejected (DeploymentFailed code)
  | None => Rejected (DeploymentFailed code)
  end.
Proof.
  intros Ho. unfold Deploy.run. rewrite fold_left_app. cbn [fold_left].
  pose proof (deploy_pending_without_close evs Deploy.init Ho) as Hp.
  pose proof (vars_run evs) as Hv.
  set (st := fold_left Deploy.handle evs Deploy.init) in *.
  assert (Hc : Deploy.outcome (Deploy.handle st (Close code)) =
               match code with
               | Some c =>
                   if (c =? 0)%Z then Fulfilled (Deploy.scan (stdout_chunks evs))
                   else Rejected (DeploymentFailed code)
               | None => Rejected (DeploymentFailed code)
               end).
  { simpl. unfold Deploy.on_close. rewrite <- Hv.
    destruct code as [[| |]|]; simpl; rewrite Hp; reflexivity. }
  rewrite deploy_outcome_fold; [exact Hc|].
  rewrite Hc. destruct code as [c|]; [destruct (c =? 0)%Z|]; discriminate.
Qed.

Lemma deploy_first_close_decides_witness :
  Deploy.run ([Stdout (lit "Network id: 5777"); Stderr (lit "warn")] ++
              Close (Some 0%Z) :: [Stdout (lit "Network id: 1")])
  = Fulfilled {| Deploy.contractAddress := [];
                 Deploy.networkId := lit "5777" |}.
Proof.
  apply (deploy_first_close_decides
           [Stdout (lit "Network id: 5777"); Stderr (lit "warn")]
           [Stdout (lit "Network id: 1")] (Some 0%Z)).
  reflexivity.
Defined.

(** What [deployContract] can resolve with.  The network id of the result
    is a string of decimal digits, possibly empty, and the contract address
    is empty or [0x] followed by forty hexadecimal digits. *)
Theorem deploy_result_shaped (evs : list pevent) (d : Deploy.deployment) :
  Deploy.run evs = Fulfilled d ->
  deployment_shaped d = true /\ plain_value (Deploy.networkId d) = true.
Proof.
  intros H.
  assert (Hs : deployment_shaped d = true).
  { apply (run_shaped evs Deploy.init); [reflexivity | discriminate | exact H]. }
  split; [exact Hs | apply shaped_id_plain, Hs].
Qed.

Lemma deploy_result_shaped_witness :
  deployment_shaped
    {| Deploy.contractAddress := lit "0xABCDEF0123456789ABCDEF0123456789ABCDEF01";
       Deploy.networkId := lit "5777" |} = true.
Proof.
  apply (deploy_result_shaped (migrate_events run_scenario)).
  vm_compute. reflexivity.
Defined.

(** Patching with the id of a deployment is idempotent.  Whatever the
    migration printed, the network id that [deployContract] resolves with
    is a value for which a second [updateServerConfig] leaves
    [server/index.js], and the world, as the first one left them. *)
Theorem deployed_id_patches_once
        (evs : list pevent) (d : Deploy.deployment) (content : jsstring)
        (w : world) :
  Deploy.run evs = Fulfilled d ->
  patch (Deploy.networkId d) (patch (Deploy.networkId d) content)
  = patch (Deploy.networkId d) content
  /\ (updateServerConfig (Deploy.networkId d) ;;
      updateServerConfig (Deploy.networkId d)) w
     = updateServerConfig (Deploy.networkId d) w.
Proof.
  intros H.
  assert (Hp : plain_value (Deploy.networkId d) = true).
  { apply shaped_id_plain.
    apply (run_shaped evs Deploy.init); [reflexivity | discriminate | exact H]. }
  split; [apply patch_twice, Hp|].
  unfold bind, updateServerConfig. destruct (server_index_js w) eqn:F.
  - cbn [server_index_js]. rewrite (patch_twice _ _ Hp). reflexivity.
  - reflexivity.
Qed.

Lemma deployed_id_patches_once_witness :
  patch (lit "5777") (patch (lit "5777") (lit "const networkId = '1';"))
  = patch (lit "5777") (lit "const networkId = '1';").
Proof.
  apply (deployed_id_patches_once (migrate_events run_scenario)
           {| Deploy.contractAddress :=
                lit "0xABCDEF0123456789ABCDEF0123456789ABCDEF01";
              Deploy.networkId := lit "5777" |}
           (lit "const networkId = '1';") (initial None)).
  vm_compute. reflexivity.
Defined.

(** ** The configuration patch *)

Lemma locator_here_split (s : jsstring) (m : rmatch) :
  locator_here s = Some m -> s = m_matched m ++ m_rest m.
Proof.
  intros H. apply locator_here_spec in H as (body & post & -> & _ & ->).
  cbn [m_matched m_rest]. rewrite decl_prefix_eq, <- !app_assoc. reflexivity.
Qed.

(** The patch rewrites the leftmost declaration and nothing else.  When the
    artifact contains the declaration and the value has no quote, no dollar
    sign and no semicolon in front, the new text is the old text with the
    leftmost declaration replaced by the declaration of the value: the text
    before it and the text after it, later declarations included, are
    kept.  Looking for the declaration in the new text finds the one that
    was written, at the same place. *)
Theorem patch_rewrites_leftmost_declaration
        (v content pre : jsstring) (m : rmatch) :
  plain_value v = true ->
  regex_search locator_here content = Some (pre, m) ->
  content = pre ++ m_matched m ++ m_rest m
  /\ patch v content = pre ++ template v ++ m_rest m
  /\ regex_search locator_here (patch v content)
     = Some (pre, {| m_matched := template v; m_group := [];
                     m_rest := m_rest m |}).
Proof.
  intros Hv E. apply plain_value_parts in Hv as (Hq & Hd & Hs).
  pose proof (patch_plain v content pre m Hd E) as Hp.
  split; [|split; [exact Hp|]].
  - destruct (regex_search_sound _ _ _ _ E) as (suffix & -> & H).
    rewrite (locator_here_split _ _ H). reflexivity.
  - rewrite Hp. apply (regex_search_patched content); assumption.
Qed.

Lemma patch_rewrites_leftmost_declaration_witness :
  patch (lit "5777")
        (lit "// cfg;const networkId = '';const networkId = 'old';")
  = lit "// cfg;" ++ template (lit "5777") ++ lit "const networkId = 'old';".
Proof.
  apply (patch_rewrites_leftmost_declaration (lit "5777")
           (lit "// cfg;const networkId = '';const networkId = 'old';")
           (lit "// cfg;")
           {| m_matched := lit "const networkId = '';"; m_group := [];
              m_rest := lit "const networkId = 'old';" |}).
  - reflexivity.
  - vm_compute. reflexivity.
Defined.

(** ** The data seeder *)

Section SeederPrefix.

Variable e : env.

Lemma submit_prefix (cs : list call) (w : world) :
  exists n r,
    submit e cs w = (r, with_sent w (sent w ++ firstn n cs)) /\
    (n <= List.length cs)%nat /\
    ((r = Returned tt /\ n = List.length cs) \/
     (exists reason, r = Thrown (CallRejected reason))).
Proof.
  revert w; induction cs as [|c cs IH]; intros w.
  - exists 0%nat, (Returned tt). simpl.
    rewrite app_nil_r, with_sent_same. auto.
  - simpl. unfold bind, send.
    destruct (chain_reply e (sent w) c) as [reason|].
    + exists 1%nat, (Thrown (CallRejected reason)).
      split; [reflexivity | split; [simpl; lia | eauto]].
    + match goal with
      | |- context [submit e cs ?w1] =>
          destruct (IH w1) as (n & r & E & Hn & Hr); rewrite E
      end.
      exists (S n), r. split; [|split].
      * unfold with_sent. simpl. rewrite <- app_assoc. reflexivity.
      * simpl. lia.
      * destruct Hr as [[-> ->] | Hr]; [left | right]; auto.
Qed.

Lemma seed_prefix (items : list item) (networkId : jsstring) (w : world) :
  exists n r,
    seed e items networkId w =
    (r, with_sent w (sent w ++ firstn n (seeding_calls items))) /\
    (n <= S (List.length items))%nat /\
    ((r = Returned tt /\ n = S (List.length items)) \/
     (exists err, r = Thrown err)).
Proof.
  assert (Hl : List.length (seeding_calls items) = S (List.length items))
    by (unfold seeding_calls; simpl; rewrite length_map; reflexivity).
  assert (H0 : forall err,
             exists n r,
               (@Thrown unit err, w) =
               (r, with_sent w (sent w ++ firstn n (seeding_calls items))) /\
               (n <= S (List.length items))%nat /\
               ((r = Returned tt /\ n = S (List.length items)) \/
                (exists err, r = Thrown err))).
  { intros err. exists 0%nat, (Thrown err). simpl.
    rewrite app_nil_r, with_sent_same. repeat split; [lia | eauto]. }
  destruct (artifact e) as [j|] eqn:Ha.
  - destruct (deployed_address j networkId) as [a|] eqn:Hd.
    + destruct (interface_error e (abi j)) as [reason|] eqn:Hi;
        [|destruct (is_address a) eqn:Hw].
      * unfold seed, try_catch, throw, new_contract, bind.
        rewrite Ha. cbv zeta. rewrite Hd, Hi. apply H0.
      * rewrite (seed_submit e items networkId w j a Ha Hd Hi Hw).
        unfold try_catch.
        destruct (submit_prefix (seeding_calls items) w)
          as (n & r & E & Hn & Hr).
        rewrite E, Hl in *. exists n, r.
        destruct Hr as [[-> ->] | [reason ->]];
          (split; [reflexivity | split; [lia | eauto]]).
      * unfold seed, try_catch, throw, new_contract, bind.
        rewrite Ha. cbv zeta. rewrite Hd, Hi, Hw. apply H0.
    + unfold seed, try_catch, throw. rewrite Ha. cbv zeta. rewrite Hd.
      apply H0.
  - unfold seed, try_catch, throw. rewrite Ha. apply H0.
Qed.

End SeederPrefix.

(** What the seeder leaves behind.  On every input the seeder returns or
    throws, and on the way it changes nothing but the record of submitted
    calls, to which it adds a prefix of the registration followed by the
    item calls; when it returns, it has added them all. *)
Theorem seed_submits_prefix
        (e : env) (items : list item) (networkId : jsstring) (w : world) :
  exists n,
    (n <= S (List.length items))%nat /\
    snd (seed e items networkId w) =
    with_sent w (sent w ++ firstn n (seeding_calls items)) /\
    ((fst (seed e items networkId w) = Returned tt /\
      n = S (List.length items)) \/
     exists err, fst (seed e items networkId w) = Thrown err).
Proof.
  destruct (seed_prefix e items networkId w) as (n & r & E & Hn & Hr).
  exists n. rewrite E. simpl. auto.
Qed.

(** ** Teardown *)

(** [cleanup] from any state.  Whatever the state of the run and whichever
    of the two signals arrives, [cleanup] sends [SIGTERM] to the processes
    held in [ganacheProcess] and [serverProcess], in this order, changes
    nothing else, and exits the process; no statement that follows a call
    of [cleanup] is run. *)
Theorem cleanup_signals_registered_and_exits
        (w : world) (sig : signal) (k : M unit) :
  on_signal sig w =
  (Exited 0,
   {| ganacheProcess := ganacheProcess w; serverProcess := serverProcess w;
      spawned := spawned w;
      signalled := signalled w ++ map (fun p => (p, SIGTERM)) (registered w);
      server_index_js := server_index_js w; sent := sent w |})
  /\ (cleanup ;; k) w = cleanup w.
Proof.
  unfold on_signal, cleanup, registered, bind, kill, ret, process_exit.
  destruct w as [[gp|] [sp|] spw sg f snt]; simpl;
    rewrite <- ?app_assoc, ?app_nil_r; auto.
Qed.

(** ** The pipeline as a whole *)

Section MainRuns.

Variable e : env.

(** [main] from the seeding step on. *)
Lemma main_after_patch (d : Deploy.deployment) (content : jsstring)
      (r : result unit) (cs : list call) :
  Step.run Step.ganache (ganache_events e) = Fulfilled tt ->
  Deploy.run (migrate_events e) = Fulfilled d ->
  seed e testItems (Deploy.networkId d)
       (patched_world (Some (patch (Deploy.networkId d) content)))
  = (r, with_sent (patched_world (Some (patch (Deploy.networkId d) content))) cs) ->
  main e (initial (Some content)) =
  match r with
  | Returned _ =>
      match Step.run Step.server (server_events e) with
      | Rejected _ =>
          (Exited 0,
           {| ganacheProcess := Some GanacheProc;
              serverProcess := Some ServerProc;
              spawned := [GanacheProc; MigrateProc; ServerProc];
              signalled := [(GanacheProc, SIGTERM); (ServerProc, SIGTERM)];
              server_index_js := Some (patch (Deploy.networkId d) content);
              sent := cs |})
      | _ =>
          (Waiting,
           {| ganacheProcess := Some GanacheProc;
              serverProcess := Some ServerProc;
              spawned := [GanacheProc; MigrateProc; ServerProc];
              signalled := [];
              server_index_js := Some (patch (Deploy.networkId d) content);
              sent := cs |})
      end
  | Thrown _ =>
      (Exited 0,
       {| ganacheProcess := Some GanacheProc; serverProcess := None;
          spawned := [GanacheProc; MigrateProc];
          signalled := [(GanacheProc, SIGTERM)];
          server_index_js := Some (patch (Deploy.networkId d) content);
          sent := cs |})
  | Exited s =>
      (Exited s,
       with_sent (patched_world (Some (patch (Deploy.networkId d) content))) cs)
  | Waiting =>
      (Waiting,
       with_sent (patched_world (Some (patch (Deploy.networkId d) content))) cs)
  end.
Proof.
  intros G D H. unfold patched_world in H.
  main_unfold. rewrite G, D. simpl. unfold createTestData. rewrite H.
  destruct r as [[]| | |]; simpl; try reflexivity.
  destruct (Step.run Step.server (server_events e)) as [|[]|err]; reflexivity.
Qed.

End MainRuns.







(** Without a recorded deployment nothing is submitted.  When the build
    artifact cannot be loaded, or has no entry with a non-empty address for
    the network id of the deployment, [main] tears down after the patch:
    no call is submitted and the server is not spawned, while the
    configuration stays patched. *)
Theorem main_fails_without_recorded_deployment
        (e : env) (d : Deploy.deployment) (content : jsstring) :
  Step.run Step.ganache (ganache_events e) = Fulfilled tt ->
  Deploy.run (migrate_events e) = Fulfilled d ->
  match artifact e with
  | None => True
  | Some j => deployed_address j (Deploy.networkId d) = None
  end ->
  (exists status, fst (main e (initial (Some content))) = Exited status)
  /\ snd (main e (initial (Some content))) =
     {| ganacheProcess := Some GanacheProc; serverProcess := None;
        spawned := [GanacheProc; MigrateProc];
        signalled := [(GanacheProc, SIGTERM)];
        server_index_js := Some (patch (Deploy.networkId d) content);
        sent := [] |}.
Proof.
  intros G D A.
  assert (H : exists err,
             seed e testItems (Deploy.networkId d)
                  (patched_world (Some (patch (Deploy.networkId d) content)))
             = (Thrown err,
                with_sent (patched_world
                             (Some (patch (Deploy.networkId d) content))) [])).
  { unfold seed, try_catch, throw. destruct (artifact e) as [j|].
    - rewrite A. eauto.
    - eauto. }
  destruct H as [err H].
  rewrite (main_after_patch e d content (Thrown err) [] G D H).
  simpl. eauto.
Qed.

Lemma main_fails_without_recorded_deployment_witness :
  snd (main {| ganache_events := ganache_events run_scenario;
               migrate_events := [Close (Some 0%Z)];
               artifact := Some artifact_5777;
               interface_error := fun _ => None;
               chain_reply := fun _ _ => None;
               server_events := server_events run_scenario |}
            (initial (Some (lit "const networkId = '5777';"))))
  = {| ganacheProcess := Some GanacheProc; serverProcess := None;
       spawned := [GanacheProc; MigrateProc];
       signalled := [(GanacheProc, SIGTERM)];
       server_index_js := Some (patch [] (lit "const networkId = '5777';"));
       sent := [] |}.
Proof.
  refine (proj2 (main_fails_without_recorded_deployment
           _ {| Deploy.contractAddress := []; Deploy.networkId := [] |}
           (lit "const networkId = '5777';") _ _ _)).
  - vm_compute. reflexivity.
  - vm_compute. reflexivity.
  - vm_compute. reflexivity.
Defined.

Ltac order_case :=
  repeat split; simpl; intros;
  try reflexivity;
  try solve [intuition (discriminate || congruence)];
  try solve [eauto 8].

(** The deployment step has no timeout.  When the network is up and the
    migration never closes, [main] waits for ever: there is no teardown, no
    process is signalled, the configuration is not touched, nothing is
    submitted and the server is not spawned. *)
Theorem main_waits_for_open_deployment
        (e : env) (file : option jsstring) :
  Step.run Step.ganache (ganache_events e) = Fulfilled tt ->
  still_open (migrate_events e) = true ->
  main e (initial file) = (Waiting, patched_world file).
Proof.
  intros G Ho.
  assert (D : Deploy.run (migrate_events e) = Pending)
    by (unfold Deploy.run; rewrite deploy_pending_without_close; auto).
  main_unfold. rewrite G, D. reflexivity.
Qed.

Lemma main_waits_for_open_deployment_witness :
  main {| ganache_events := ganache_events run_scenario;
          migrate_events := [Stdout (lit "Compiling your contracts...")];
          artifact := Some artifact_5777;
          interface_error := fun _ => None;
          chain_reply := fun _ _ => None;
          server_events := server_events run_scenario |}
       (initial (Some (lit "const networkId = '';")))
  = (Waiting, patched_world (Some (lit "const networkId = '';"))).
Proof.
  apply main_waits_for_open_deployment.
  - vm_compute. reflexivity.
  - reflexivity.
Defined.

(** The steps of [main] run in order, each only after the one before has
    succeeded.  After every run the spawned processes are the network
    process, then possibly the migration, then possibly the server.  The
    migration is spawned exactly when the network step has resolved; a call
    is submitted only when the deployment has resolved and the
    configuration could be read; and the server is spawned only after the
    registration and all three items have been submitted. *)
Theorem main_steps_in_order (e : env) (file : option jsstring) :
  (spawned (snd (main e (initial file))) = [GanacheProc]
   \/ spawned (snd (main e (initial file))) = [GanacheProc; MigrateProc]
   \/ spawned (snd (main e (initial file)))
      = [GanacheProc; MigrateProc; ServerProc])
  /\ (In MigrateProc (spawned (snd (main e (initial file)))) <->
      Step.run Step.ganache (ganache_events e) = Fulfilled tt)
  /\ (sent (snd (main e (initial file))) <> [] ->
      exists d content,
        Deploy.run (migrate_events e) = Fulfilled d /\ file = Some content)
  /\ (In ServerProc (spawned (snd (main e (initial file)))) ->
      sent (snd (main e (initial file))) = seeding_calls testItems).
Proof.
  main_unfold.
  destruct (Step.run Step.ganache (ganache_events e)) as [|[]|err]; simpl.
  - order_case.
  - destruct (Deploy.run (migrate_events e)) as [|d|err]; simpl.
    + order_case.
    + destruct file as [content|]; simpl.
      * match goal with
        | |- context [createTestData e ?n ?w] =>
            destruct (seed_prefix e testItems n w) as (k & r & E & Hk & Hr);
            unfold createTestData; rewrite E
        end.
        destruct Hr as [[-> ->] | [err ->]]; simpl.
        -- destruct (Step.run Step.server (server_events e)) as [|[]|err];
             simpl; order_case.
        -- order_case.
      * order_case.
    + order_case.
  - order_case.
Qed.

Lemma main_steps_in_order_witness :
  In MigrateProc
     (spawned (snd (main run_scenario
                      (initial (Some (lit "const networkId = '';"))))))
  /\ sent (snd (main run_scenario
                  (initial (Some (lit "const networkId = '';")))))
     = seeding_calls testItems.
Proof.
  split.
  - apply (proj1 (proj2 (main_steps_in_order run_scenario
                           (Some (lit "const networkId = '';"))))).
    vm_compute. reflexivity.
  - apply (proj2 (proj2 (proj2 (main_steps_in_order run_scenario
                                  (Some (lit "const networkId = '';")))))).
    vm_compute. auto.
Defined.

(** The configuration file is written once and never rolled back.  After
    every run, [server/index.js] holds its original content if the network
    step or the deployment step did not resolve (or the file could not be
    read), and otherwise the content patched with the network id of the
    deployment, whatever happened in the later steps. *)
Theorem main_config_file (e : env) (file : option jsstring) :
  server_index_js (snd (main e (initial file))) =
  match Step.run Step.ganache (ganache_events e),
        Deploy.run (migrate_events e), file with
  | Fulfilled _, Fulfilled d, Some content =>
      Some (patch (Deploy.networkId d) content)
  | _, _, _ => file
  end.
Proof.
  main_unfold.
  destruct (Step.run Step.ganache (ganache_events e)) as [|[]|err]; simpl;
    try reflexivity.
  destruct (Deploy.run (migrate_events e)) as [|d|err]; simpl;
    try reflexivity.
  destruct file as [content|]; simpl; try reflexivity.
  seed_case; try reflexivity.
  destruct (Step.run Step.server (server_events e)) as [|[]|err]; reflexivity.
Qed.

(** A step that fails early leaves the later steps untouched.  When the
    network step rejects, only the network process has been spawned and it
    is the only one signalled; when the deployment step rejects, or the
    configuration file cannot be read, the migration has been spawned as
    well but is not signalled.  In each case the file is as it was and no
    call has been submitted. *)
Theorem main_early_failure
        (e : env) (file : option jsstring) (err : error) :
  (Step.run Step.ganache (ganache_events e) = Rejected err ->
   snd (main e (initial file)) =
   {| ganacheProcess := Some GanacheProc; serverProcess := None;
      spawned := [GanacheProc]; signalled := [(GanacheProc, SIGTERM)];
      server_index_js := file; sent := [] |})
  /\ (Step.run Step.ganache (ganache_events e) = Fulfilled tt ->
      Deploy.run (migrate_events e) = Rejected err \/
      (exists d, Deploy.run (migrate_events e) = Fulfilled d) /\ file = None ->
      snd (main e (initial file)) =
      {| ganacheProcess := Some GanacheProc; serverProcess := None;
         spawned := [GanacheProc; MigrateProc];
         signalled := [(GanacheProc, SIGTERM)];
         server_index_js := file; sent := [] |}).
Proof.
  split.
  - intros G. main_unfold. rewrite G. reflexivity.
  - intros G [D | [[d D] ->]]; main_unfold; rewrite G, D; reflexivity.
Qed.

Lemma main_early_failure_witness :
  snd (main run_deploy_fails (initial (Some (lit "const networkId = '';"))))
  = {| ganacheProcess := Some GanacheProc; serverProcess := None;
       spawned := [GanacheProc; MigrateProc];
       signalled := [(GanacheProc, SIGTERM)];
       server_index_js := Some (lit "const networkId = '';"); sent := [] |}.
Proof.
  refine (proj2 (main_early_failure run_deploy_fails
           (Some (lit "const networkId = '';")) (DeploymentFailed (Some 1%Z)))
           _ _).
  - vm_compute. reflexivity.
  - left. vm_compute. reflexivity.
Defined.

(** ** The contract object *)

(** The seeder once a deployment is found: the constructor decides whether
    any call is submitted. *)
Lemma seed_by_contract (e : env) (items : list item) (networkId : jsstring)
      (w : world) (j : contract_json) (a : jsstring) :
  artifact e = Some j -> deployed_address j networkId = Some a ->
  seed e items networkId w =
  match interface_error e (abi j) with
  | Some reason => (Thrown (InterfaceRejected reason), w)
  | None =>
      if is_address a
      then try_catch (submit e (seeding_calls items))
                     (fun error => throw error) w
      else (Thrown (InvalidAddressError a), w)
  end.
Proof.
  intros Ha Hd. destruct (interface_error e (abi j)) as [reason|] eqn:Hi;
    [|destruct (is_address a) eqn:Hw].
  - unfold seed, try_catch, throw, new_contract, bind.
    rewrite Ha. cbv zeta. rewrite Hd, Hi. reflexivity.
  - apply (seed_submit e items _ w j a Ha Hd Hi Hw).
  - unfold seed, try_catch, throw, new_contract, bind.
    rewrite Ha. cbv zeta. rewrite Hd, Hi, Hw. reflexivity.
Qed.

(** Without a contract object nothing is submitted.  When the artifact
    records an address for the network id but web3 does not build the
    contract object from it, because it rejects the interface description
    or because the address is not an optional [0x] and forty hexadecimal
    digits, the seeder throws the error of the constructor and submits no
    call; [main] then tears down after the patch, with the server not
    spawned and the network process the only one signalled. *)
Theorem seed_without_contract_submits_nothing
        (e : env) (items : list item) (d : Deploy.deployment)
        (content : jsstring) (w : world) (j : contract_json) (a : jsstring) :
  artifact e = Some j ->
  deployed_address j (Deploy.networkId d) = Some a ->
  (forall reason,
     interface_error e (abi j) = Some reason ->
     seed e items (Deploy.networkId d) w = (Thrown (InterfaceRejected reason), w))
  /\ (interface_error e (abi j) = None -> is_address a = false ->
      seed e items (Deploy.networkId d) w = (Thrown (InvalidAddressError a), w))
  /\ (interface_error e (abi j) <> None \/ is_address a = false ->
      Step.run Step.ganache (ganache_events e) = Fulfilled tt ->
      Deploy.run (migrate_events e) = Fulfilled d ->
      snd (main e (initial (Some content))) =
      {| ganacheProcess := Some GanacheProc; serverProcess := None;
         spawned := [GanacheProc; MigrateProc];
         signalled := [(GanacheProc, SIGTERM)];
         server_index_js := Some (patch (Deploy.networkId d) content);
         sent := [] |}).
Proof.
  intros Ha Hd. split; [|split].
  - intros reason Hi. rewrite (seed_by_contract e items _ w j a Ha Hd), Hi.
    reflexivity.
  - intros Hi Hw. rewrite (seed_by_contract e items _ w j a Ha Hd), Hi, Hw.
    reflexivity.
  - intros Hbad G D.
    assert (H : exists err,
               seed e testItems (Deploy.networkId d)
                 (patched_world (Some (patch (Deploy.networkId d) content)))
               = (Thrown err,
                  with_sent
                    (patched_world (Some (patch (Deploy.networkId d) content)))
                    [])).
    { rewrite (seed_by_contract e testItems _ _ j a Ha Hd).
      destruct (interface_error e (abi j)) as [reason|]; [eauto|].
      destruct Hbad as [Hbad | Hbad]; [contradiction Hbad; reflexivity|].
      rewrite Hbad. eauto. }
    destruct H as [err H].
    rewrite (main_after_patch e d content (Thrown err) [] G D H).
    reflexivity.
Qed.

Lemma seed_without_contract_submits_nothing_witness :
  seed {| ganache_events := ganache_events run_scenario;
          migrate_events := migrate_events run_scenario;
          artifact :=
            Some {| abi := Some supply_chain_abi;
                    networks :=
                      Some [(lit "5777", {| address := Some (lit "0xAB") |})] |};
          interface_error := fun _ => None;
          chain_reply := fun _ _ => None;
          server_events := server_events run_scenario |}
       testItems (lit "5777") (initial None)
  = (Thrown (InvalidAddressError (lit "0xAB")), initial None).
Proof.
  refine (proj1 (proj2 (seed_without_contract_submits_nothing
           _ testItems
           {| Deploy.contractAddress := []; Deploy.networkId := lit "5777" |}
           [] (initial None)
           {| abi := Some supply_chain_abi;
              networks :=
                Some [(lit "5777", {| address := Some (lit "0xAB") |})] |}
           (lit "0xAB") _ _)) _ _).
  - reflexivity.
  - vm_compute. reflexivity.
  - reflexivity.
  - vm_compute. reflexivity.
Defined.

Example is_address_examples :
  is_address (lit "0xABCDEF0123456789ABCDEF0123456789ABCDEF01") = true
  /\ is_address (lit "abcdef0123456789abcdef0123456789abcdef01") = true
  /\ is_address (lit "0XABCDEF0123456789ABCDEF0123456789ABCDEF01") = true
  /\ is_address (lit "0xAB") = false
  /\ is_address (lit "0xABCDEF0123456789ABCDEF0123456789ABCDEF0") = false
  /\ is_address (lit "0xABCDEF0123456789ABCDEF0123456789ABCDEF012") = false
  /\ is_address (lit "0xGBCDEF0123456789ABCDEF0123456789ABCDEF01") = false.
Proof. repeat split; vm_compute; reflexivity. Qed.
